(** * CSS selector builder of [06-objects-tasks.js]

    A shallow embedding of [checkOrder], of the class [MyCssSelector] and of
    the facade object [cssSelectorBuilder], followed by the properties of the
    builder.

    Builders are JavaScript objects: they are mutated in place, every method
    returns [this], and [combine] calls [stringify] on two other builders,
    which may be the receiver itself or one another.  The embedding therefore
    keeps the builders in a store indexed by references, and every method is a
    computation in a state-and-exception monad over that store. *)

From Stdlib Require Import ZArith String Ascii List Bool Lia.
From stdpp Require Import base option list gmap.
Import ListNotations.

Local Open Scope string_scope.
Local Open Scope Z_scope.

(** ** The JavaScript primitives used by the source *)

Module JS.

(** [s.includes(sub)]: [sub] occurs in [s] at some position. *)
Fixpoint includes (s sub : string) : bool :=
  String.prefix sub s
  || match s with
     | EmptyString => false
     | String _ s' => includes s' sub
     end.

(** [s[i]]: the character at index [i], [undefined] ([None]) past the end. *)
Definition charAt (s : string) (i : nat) : option ascii := String.get i s.

(** [x === 'c'] for a character read [x]: [undefined] equals no character. *)
Definition isChar (x : option ascii) (c : ascii) : bool :=
  match x with
  | Some a => Ascii.eqb a c
  | None => false
  end.

(** [s.match(/[...]/)] is non-null: some character of [s] is in the class. *)
Fixpoint match_class (cls : list ascii) (s : string) : bool :=
  match s with
  | EmptyString => false
  | String a s' => existsb (Ascii.eqb a) cls || match_class cls s'
  end.

(** [s.match(/::.*/g)] is non-null: two colons at some position, followed
    by whatever [.*] takes, which may be nothing. *)
Fixpoint match_colons_rest (s : string) : bool :=
  match s with
  | EmptyString => false
  | String a s' =>
      (Ascii.eqb a ":" && match s' with
                          | String b _ => Ascii.eqb b ":"
                          | EmptyString => false
                          end)
      || match_colons_rest s'
  end.

(** [arr.indexOf(x)]: the first index holding a string equal to [x], or
    [-1]. *)
Fixpoint indexOf_from (i : Z) (arr : list string) (x : string) : Z :=
  match arr with
  | [] => -1
  | y :: ys => if String.eqb y x then i else indexOf_from (i + 1) ys x
  end.

Definition indexOf (arr : list string) (x : string) : Z := indexOf_from 0 arr x.

(** [arr.push(x)]. *)
Definition push {A} (arr : list A) (x : A) : list A := arr ++ [x].

(** [arr.join(sep)] on an array of strings. *)
Definition join (arr : list string) (sep : string) : string := String.concat sep arr.

(** [a < b] on two array reads: a read past the end is [undefined], which
    compares false with everything. *)
Definition lt (a b : option Z) : bool :=
  match a, b with
  | Some x, Some y => x <? y
  | _, _ => false
  end.

(** A thrown value.  The builder throws [new Error(message)]; a method call
    through a reference that holds no object is a [TypeError]. *)
Inductive exn : Type :=
| Error (message : string)
| TypeError.

End JS.

(** The two errors of the builder, told apart by their messages. *)
Definition DuplicateOrMisplacedError : JS.exn :=
  JS.Error "Element, id and pseudo-element should not occur more then one time inside the selector".

Definition OrderError : JS.exn :=
  JS.Error "Selector parts should be arranged in the following order: element, id, class, attribute, pseudo-class, pseudo-element".

(** ** [checkOrder] *)

(** The six local arrays of [checkOrder]. *)
Record Indexes : Type := mkIndexes {
  classIndexes : list Z;
  attrIndexes : list Z;
  pseudoClassIndexes : list Z;
  pseudoElemIndexes : list Z;
  elemIndexes : list Z;
  idIndexes : list Z
}.

Definition noIndexes : Indexes := mkIndexes [] [] [] [] [] [].

(** The tests of the six [if] statements of the loop body. *)
Definition isId (s : string) : bool := JS.includes s "#".
Definition isElem (s : string) : bool := negb (JS.match_class ["."; ":"; "#"]%char s).
Definition isClass (s : string) : bool := JS.includes s ".".
Definition isAttr (s : string) : bool := JS.includes s "[".
Definition isPseudoClass (s : string) : bool :=
  JS.isChar (JS.charAt s 0) ":" && negb (JS.isChar (JS.charAt s 1) ":").
Definition isPseudoElem (s : string) : bool := JS.match_colons_rest s.

(** One turn of [arr.forEach((sel, i) => ...)]; [arr[i]] is [sel], the array
    being left alone by the loop. *)
Definition visit (arr : list string) (ix : Indexes) (sel : string) : Indexes :=
  let k := JS.indexOf arr sel in
  let idI := if isId sel then JS.push (idIndexes ix) k else idIndexes ix in
  let elemI := if isElem sel then JS.push (elemIndexes ix) k else elemIndexes ix in
  let classI := if isClass sel then JS.push (classIndexes ix) k else classIndexes ix in
  let attrI := if isAttr sel then JS.push (attrIndexes ix) k else attrIndexes ix in
  let pseudoClassI :=
    if isPseudoClass sel then JS.push (pseudoClassIndexes ix) k else pseudoClassIndexes ix in
  let pseudoElemI :=
    if isPseudoElem sel then JS.push (pseudoElemIndexes ix) k else pseudoElemIndexes ix in
  mkIndexes classI attrI pseudoClassI pseudoElemI elemI idI.

Definition collect (arr : list string) : Indexes := fold_left (visit arr) arr noIndexes.

(** The condition of the final [if]: nine comparisons of first entries. *)
Definition misordered (ix : Indexes) : bool :=
  let class0 := head (classIndexes ix) in
  let attr0 := head (attrIndexes ix) in
  let pseudoClass0 := head (pseudoClassIndexes ix) in
  let pseudoElem0 := head (pseudoElemIndexes ix) in
  let elem0 := head (elemIndexes ix) in
  let id0 := head (idIndexes ix) in
  JS.lt attr0 class0 || JS.lt pseudoClass0 class0
  || JS.lt class0 id0 || JS.lt class0 elem0
  || JS.lt pseudoClass0 attr0 || JS.lt pseudoClass0 id0
  || JS.lt pseudoElem0 pseudoClass0 || JS.lt pseudoElem0 id0
  || JS.lt id0 elem0.

(** [checkOrder(arr)] returns nothing or throws. *)
Definition checkOrder (arr : list string) : JS.exn + unit :=
  if misordered (collect arr) then inl OrderError else inr tt.

(** ** The store of builders and the monad of methods *)

(** A [MyCssSelector] object: the two fields set by the constructor. *)
Record MyCssSelector : Type := mkSelector {
  selectorsChain : list string;
  combinedSelectors : list string
}.

(** References to builders, and the store they point into. *)
Abbreviation ref := nat (only parsing).
Abbreviation store := (gmap nat MyCssSelector) (only parsing).

(** A method body: it reads and writes the store, and either returns a value
    or throws.  What was written before a [throw] stays written. *)
Definition M (A : Type) : Type := store -> (JS.exn + A) * store.

Definition ret {A} (a : A) : M A := fun h => (inr a, h).

Definition throw {A} (e : JS.exn) : M A := fun h => (inl e, h).

Definition bind {A B} (m : M A) (k : A -> M B) : M B :=
  fun h =>
    match m h with
    | (inr a, h') => k a h'
    | (inl e, h') => (inl e, h')
    end.

Declare Scope js_scope.
Delimit Scope js_scope with js.
Notation "x <- m ;; k" := (bind m (fun x => k))
  (at level 100, m at next level, right associativity) : js_scope.
Notation "m ;; k" := (bind m (fun _ => k))
  (at level 100, right associativity) : js_scope.
Local Open Scope js_scope.

(** A pure computation that may throw, run inside a method. *)
Definition lift {A} (r : JS.exn + A) : M A :=
  match r with
  | inl e => throw e
  | inr a => ret a
  end.

(** [arr.forEach(f)] where [f] may throw: the first throw ends the loop. *)
Fixpoint forEach {A} (arr : list A) (f : A -> M unit) : M unit :=
  match arr with
  | [] => ret tt
  | x :: xs => f x ;; forEach xs f
  end.

(** Reading the object behind a reference. *)
Definition deref (this : ref) : M MyCssSelector :=
  fun h =>
    match h !! this with
    | Some o => (inr o, h)
    | None => (inl JS.TypeError, h)
    end.

(** Updating the object behind a reference in place. *)
Definition update (this : ref) (f : MyCssSelector -> MyCssSelector) : M unit :=
  o <- deref this ;;
  fun h => (inr tt, <[this := f o]> h).

(** [new MyCssSelector()]: a fresh reference to an object with two empty
    arrays. *)
Definition new_MyCssSelector : M ref :=
  fun h =>
    let this := fresh (dom h) in
    (inr this, <[this := mkSelector [] []]> h).

(** ** The class [MyCssSelector] *)

Module Selector.

(** [this.selectorsChain.push(x)]. *)
Definition pushChain (this : ref) (x : string) : M unit :=
  update this (fun o => mkSelector (JS.push (selectorsChain o) x) (combinedSelectors o)).

(** [checkOrder(this.selectorsChain)]. *)
Definition checkChain (this : ref) : M unit :=
  o <- deref this ;;
  lift (checkOrder (selectorsChain o)).

(** The loop that opens [element], [id] and [pseudoElement]: throw as soon
    as a fragment of the chain passes [test]. *)
Definition rejectIf (this : ref) (test : string -> bool) : M unit :=
  o <- deref this ;;
  forEach (selectorsChain o)
    (fun sel => if test sel then throw DuplicateOrMisplacedError else ret tt).

Definition element (this : ref) (value : string) : M ref :=
  let selector := value in
  rejectIf this (fun sel => negb (JS.match_class ["."; ":"; ":"; "#"]%char sel)) ;;
  pushChain this selector ;;
  checkChain this ;;
  ret this.

Definition id (this : ref) (value : string) : M ref :=
  let iD := "#" ++ value in
  rejectIf this (fun sel => JS.includes sel "#") ;;
  pushChain this iD ;;
  checkChain this ;;
  ret this.

Definition class (this : ref) (value : string) : M ref :=
  let clAss := "." ++ value in
  pushChain this clAss ;;
  checkChain this ;;
  ret this.

Definition attr (this : ref) (value : string) : M ref :=
  let atTr := "[" ++ value ++ "]" in
  pushChain this atTr ;;
  checkChain this ;;
  ret this.

Definition pseudoClass (this : ref) (value : string) : M ref :=
  let pseudoC := ":" ++ value in
  pushChain this pseudoC ;;
  checkChain this ;;
  ret this.

Definition pseudoElement (this : ref) (value : string) : M ref :=
  let pseudoE := "::" ++ value in
  rejectIf this (fun sel => JS.includes sel "::") ;;
  pushChain this pseudoE ;;
  checkChain this ;;
  ret this.

Definition stringify (this : ref) : M string :=
  o <- deref this ;;
  if negb (length (combinedSelectors o) =? 0)%nat then
    ret (JS.join (combinedSelectors o) " ")
  else
    let result := JS.join (selectorsChain o) "" in
    update this (fun o => mkSelector [] (combinedSelectors o)) ;;
    ret result.

(** The receiver's array is fetched first, then the three arguments are
    evaluated from left to right, then they are pushed. *)
Definition combine (this : ref) (selector1 : ref) (combinator : string)
    (selector2 : ref) : M ref :=
  deref this ;;
  text1 <- stringify selector1 ;;
  text2 <- stringify selector2 ;;
  update this (fun o =>
    mkSelector (selectorsChain o) (combinedSelectors o ++ [text1; combinator; text2])) ;;
  ret this.

End Selector.

(** ** The facade [cssSelectorBuilder] *)

Module cssSelectorBuilder.

Definition element (value : string) : M ref :=
  this <- new_MyCssSelector ;; Selector.element this value.

Definition id (value : string) : M ref :=
  this <- new_MyCssSelector ;; Selector.id this value.

Definition class (value : string) : M ref :=
  this <- new_MyCssSelector ;; Selector.class this value.

Definition attr (value : string) : M ref :=
  this <- new_MyCssSelector ;; Selector.attr this value.

Definition pseudoClass (value : string) : M ref :=
  this <- new_MyCssSelector ;; Selector.pseudoClass this value.

Definition pseudoElement (value : string) : M ref :=
  this <- new_MyCssSelector ;; Selector.pseudoElement this value.

Definition combine (selector1 : ref) (combinator : string) (selector2 : ref) : M ref :=
  this <- new_MyCssSelector ;; Selector.combine this selector1 combinator selector2.

Definition stringify : M string :=
  this <- new_MyCssSelector ;; Selector.stringify this.

End cssSelectorBuilder.

(** Running a program from the empty store, keeping its outcome. *)
Definition run {A} (m : M A) : JS.exn + A := fst (m ∅).

(** ** Vocabulary of the statements *)

(** The object after [this.selectorsChain.push(frag)]. *)
Definition appended (o : MyCssSelector) (frag : string) : MyCssSelector :=
  mkSelector (selectorsChain o ++ [frag]) (combinedSelectors o).

(** The position of the first entry of [arr] that passes [test], counted
    from [i]. *)
Fixpoint firstIndex_from (i : Z) (test : string -> bool) (arr : list string) : option Z :=
  match arr with
  | [] => None
  | x :: xs => if test x then Some i else firstIndex_from (i + 1) test xs
  end.

Definition firstIndex (test : string -> bool) (arr : list string) : option Z :=
  firstIndex_from 0 test arr.

(** The nine comparisons, on first positions. *)
Definition inverted (arr : list string) : bool :=
  let class0 := firstIndex isClass arr in
  let attr0 := firstIndex isAttr arr in
  let pseudoClass0 := firstIndex isPseudoClass arr in
  let pseudoElem0 := firstIndex isPseudoElem arr in
  let elem0 := firstIndex isElem arr in
  let id0 := firstIndex isId arr in
  JS.lt attr0 class0 || JS.lt pseudoClass0 class0
  || JS.lt class0 id0 || JS.lt class0 elem0
  || JS.lt pseudoClass0 attr0 || JS.lt pseudoClass0 id0
  || JS.lt pseudoElem0 pseudoClass0 || JS.lt pseudoElem0 id0
  || JS.lt id0 elem0.

(** A plain value holds none of the characters [.], [:], [#] and [[] that the
    builder looks for; identifiers such as [main] or [nth-child] are plain. *)
Definition plain (s : string) : bool :=
  negb (JS.match_class ["."; ":"; "#"; "["]%char s).

(** An identifier: letters, digits, [-] and [_], at least one of them. *)
Definition identifierChar (a : ascii) : bool :=
  let n := nat_of_ascii a in
  ((97 <=? n) && (n <=? 122) || (65 <=? n) && (n <=? 90) || (48 <=? n) && (n <=? 57)
   || (n =? 45) || (n =? 95))%nat.

Definition identifier (s : string) : bool :=
  negb (String.eqb s "") && forallb identifierChar (list_ascii_of_string s).

(** How [checkOrder] reads each of the six kinds of fragment. *)
Record reading : Type := mkReading {
  asId : bool; asElem : bool; asClass : bool; asAttr : bool;
  asPseudoClass : bool; asPseudoElem : bool
}.

Definition read (s : string) : reading :=
  mkReading (isId s) (isElem s) (isClass s) (isAttr s) (isPseudoClass s) (isPseudoElem s).

(** The verdict of [checkOrder] depends on the chain through the readings of
    its fragments only. *)
Fixpoint firstRead_from (i : Z) (as_ : reading -> bool) (rs : list reading) : option Z :=
  match rs with
  | [] => None
  | r :: rs' => if as_ r then Some i else firstRead_from (i + 1) as_ rs'
  end.

Definition invertedReadings (rs : list reading) : bool :=
  let class0 := firstRead_from 0 asClass rs in
  let attr0 := firstRead_from 0 asAttr rs in
  let pseudoClass0 := firstRead_from 0 asPseudoClass rs in
  let pseudoElem0 := firstRead_from 0 asPseudoElem rs in
  let elem0 := firstRead_from 0 asElem rs in
  let id0 := firstRead_from 0 asId rs in
  JS.lt attr0 class0 || JS.lt pseudoClass0 class0
  || JS.lt class0 id0 || JS.lt class0 elem0
  || JS.lt pseudoClass0 attr0 || JS.lt pseudoClass0 id0
  || JS.lt pseudoElem0 pseudoClass0 || JS.lt pseudoElem0 id0
  || JS.lt id0 elem0.

(** What an accepted or order-rejected append leaves behind. *)
Definition pushed (h : gmap nat MyCssSelector) (this : nat) (o : MyCssSelector)
    (frag : string) : (JS.exn + nat) * gmap nat MyCssSelector :=
  (if invertedReadings (map read (selectorsChain o ++ [frag])) then inl OrderError
   else inr this,
   <[this := appended o frag]> h).

(** [n] calls in a row, results in order. *)
Fixpoint times {A} (n : nat) (m : M A) : M (list A) :=
  match n with
  | O => ret []
  | S n' => a <- m ;; rest <- times n' m ;; ret (a :: rest)
  end.

(** [element(e).id(i).class(c).attr(a).pseudoClass(pc).pseudoElement(pe).stringify()] *)
Definition allSix (e i c a pc pe : string) : M string :=
  b <- cssSelectorBuilder.element e ;;
  b <- Selector.id b i ;;
  b <- Selector.class b c ;;
  b <- Selector.attr b a ;;
  b <- Selector.pseudoClass b pc ;;
  b <- Selector.pseudoElement b pe ;;
  Selector.stringify b.

(** [class(c).element(e)] *)
Definition classThenElement (c e : string) : M nat :=
  b <- cssSelectorBuilder.class c ;;
  Selector.element b e.

(** [pseudoElement('after').class('x').stringify()] *)
Definition pseudoElementThenClass : M string :=
  b <- cssSelectorBuilder.pseudoElement "after" ;;
  b <- Selector.class b "x" ;;
  Selector.stringify b.

(** [id('main').attr('href')] *)
Definition idThenAttr : M nat :=
  b <- cssSelectorBuilder.id "main" ;;
  Selector.attr b "href".

(** [id('main').class('container').class('editable').stringify()] *)
Definition idThenClasses : M string :=
  b <- cssSelectorBuilder.id "main" ;;
  b <- Selector.class b "container" ;;
  b <- Selector.class b "editable" ;;
  Selector.stringify b.

(** [element('div').id('main')] and [element('table').id('data')], side by
    side. *)
Definition twoSelectors : M (nat * nat) :=
  s1 <- (b <- cssSelectorBuilder.element "div" ;; Selector.id b "main") ;;
  s2 <- (b <- cssSelectorBuilder.element "table" ;; Selector.id b "data") ;;
  ret (s1, s2).

(** [combine(element('div').id('main'), '+', element('table').id('data')).stringify()] *)
Definition combineTwo : M string :=
  p <- twoSelectors ;;
  b <- cssSelectorBuilder.combine (fst p) "+" (snd p) ;;
  Selector.stringify b.

(** The nested [combine] of the comment that heads the builder. *)
Definition combineNested : M string :=
  s1 <- (b <- cssSelectorBuilder.element "div" ;; b <- Selector.id b "main" ;;
         b <- Selector.class b "container" ;; Selector.class b "draggable") ;;
  s2 <- (b <- cssSelectorBuilder.element "table" ;; Selector.id b "data") ;;
  s3 <- (b <- cssSelectorBuilder.element "tr" ;; Selector.pseudoClass b "nth-of-type(even)") ;;
  s4 <- (b <- cssSelectorBuilder.element "td" ;; Selector.pseudoClass b "nth-of-type(even)") ;;
  inner <- cssSelectorBuilder.combine s3 " " s4 ;;
  middle <- cssSelectorBuilder.combine s2 "~" inner ;;
  outer <- cssSelectorBuilder.combine s1 "+" middle ;;
  Selector.stringify outer.

(** A builder that calls [combine] on itself with itself as first operand. *)
Definition combineOnOperand : M string :=
  s1 <- cssSelectorBuilder.element "div" ;;
  s2 <- cssSelectorBuilder.element "p" ;;
  Selector.combine s1 s1 "+" s2 ;;
  Selector.stringify s1.

(** Two [combine] calls on one builder. *)
Definition combineTwice : M string :=
  a <- cssSelectorBuilder.element "a" ;;
  b <- cssSelectorBuilder.element "b" ;;
  c <- cssSelectorBuilder.element "c" ;;
  d <- cssSelectorBuilder.element "d" ;;
  this <- cssSelectorBuilder.combine a "+" b ;;
  Selector.combine this c ">" d ;;
  Selector.stringify this.

(** ** Sequences of calls on one builder *)

(** The six fragment methods. *)
Inductive kind : Type := Element | Id | Class | Attr | PseudoClass | PseudoElement.

(** The fragment that a method pushes for a value. *)
Definition fragment (k : kind) (value : string) : string :=
  match k with
  | Element => value
  | Id => "#" ++ value
  | Class => "." ++ value
  | Attr => "[" ++ value ++ "]"
  | PseudoClass => ":" ++ value
  | PseudoElement => "::" ++ value
  end.

(** [this.k(value)] *)
Definition perform (this : ref) (c : kind * string) : M ref :=
  match fst c with
  | Element => Selector.element this (snd c)
  | Id => Selector.id this (snd c)
  | Class => Selector.class this (snd c)
  | Attr => Selector.attr this (snd c)
  | PseudoClass => Selector.pseudoClass this (snd c)
  | PseudoElement => Selector.pseudoElement this (snd c)
  end.

(** [cssSelectorBuilder.k(value)] *)
Definition start (c : kind * string) : M ref :=
  match fst c with
  | Element => cssSelectorBuilder.element (snd c)
  | Id => cssSelectorBuilder.id (snd c)
  | Class => cssSelectorBuilder.class (snd c)
  | Attr => cssSelectorBuilder.attr (snd c)
  | PseudoClass => cssSelectorBuilder.pseudoClass (snd c)
  | PseudoElement => cssSelectorBuilder.pseudoElement (snd c)
  end.

(** [this.k1(v1).k2(v2)...]: each call is made on what the call before it
    returned; a throw ends the chain of calls. *)
Fixpoint performAll (this : ref) (cs : list (kind * string)) : M ref :=
  match cs with
  | [] => ret this
  | c :: cs' => b <- perform this c ;; performAll b cs'
  end.

(** [cssSelectorBuilder.k1(v1).k2(v2)....stringify()] *)
Definition build (cs : list (kind * string)) : M string :=
  match cs with
  | [] => cssSelectorBuilder.stringify
  | c :: cs' => b <- start c ;; b <- performAll b cs' ;; Selector.stringify b
  end.

(** The store after the calls [cs] were made on [this] one by one by a
    caller that catches whatever they throw. *)
Definition afterAll (this : ref) (cs : list (kind * string))
    (h : gmap nat MyCssSelector) : gmap nat MyCssSelector :=
  fold_left (fun h' c => snd (perform this c h')) cs h.

(** The test of the loop that opens [element], [id] and [pseudoElement], on
    the readings of the chain; the other three methods have no such loop. *)
Definition barred (k : kind) (rs : list reading) : bool :=
  match k with
  | Element => existsb asElem rs
  | Id => existsb asId rs
  | PseudoElement => existsb asPseudoElem rs
  | Class | Attr | PseudoClass => false
  end.

(** How [checkOrder] reads the fragment of each method when the value is
    plain. *)
Definition readingOf (k : kind) : reading :=
  match k with
  | Element => mkReading false true false false false false
  | Id => mkReading true false false false false false
  | Class => mkReading false false true false false false
  | Attr => mkReading false true false true false false
  | PseudoClass => mkReading false false false false true false
  | PseudoElement => mkReading false false false false false true
  end.

(** The number of fragments of a chain that pass a test. *)
Definition count (test : string -> bool) (chain : list string) : nat :=
  length (List.filter test chain).

(** The categories found in a chain, as the union of the readings of its
    fragments. *)
Definition noReading : reading := mkReading false false false false false false.

Definition either (r s : reading) : reading :=
  mkReading (asId r || asId s) (asElem r || asElem s) (asClass r || asClass s)
    (asAttr r || asAttr s) (asPseudoClass r || asPseudoClass s)
    (asPseudoElem r || asPseudoElem s).

Definition seen (rs : list reading) : reading := fold_right either noReading rs.

(** A fragment read as [r] comes too late after the categories [s]: for one
    of the nine pairs that [checkOrder] compares, it is the first of the
    category that the code wants first, the other one being there already. *)
Definition clash (s r : reading) : bool :=
  asAttr s && negb (asClass s) && asClass r
  || asPseudoClass s && negb (asClass s) && asClass r
  || asClass s && negb (asId s) && asId r
  || asClass s && negb (asElem s) && asElem r
  || asPseudoClass s && negb (asAttr s) && asAttr r
  || asPseudoClass s && negb (asId s) && asId r
  || asPseudoElem s && negb (asPseudoClass s) && asPseudoClass r
  || asPseudoElem s && negb (asId s) && asId r
  || asId s && negb (asElem s) && asElem r.

(** ** Chains of calls seen through the methods called *)

(** What a chain of calls comes to, as far as the categories go: the
    categories found, or which of the two errors ended it. *)
Inductive verdict : Type :=
| Accepted (s : reading)
| Duplicate
| Misordered.

(** [barred] on the categories found so far. *)
Definition barredSeen (k : kind) (s : reading) : bool :=
  match k with
  | Element => asElem s
  | Id => asId s
  | PseudoElement => asPseudoElem s
  | Class | Attr | PseudoClass => false
  end.

(** One call with a plain value after the categories [s]. *)
Definition stepKind (s : reading) (k : kind) : verdict :=
  if barredSeen k s then Duplicate
  else if clash s (readingOf k) then Misordered
  else Accepted (either s (readingOf k)).

Fixpoint runKinds (s : reading) (ks : list kind) : verdict :=
  match ks with
  | [] => Accepted s
  | k :: ks' =>
      match stepKind s k with
      | Accepted s' => runKinds s' ks'
      | Duplicate => Duplicate
      | Misordered => Misordered
      end
  end.

(** The result that goes with a verdict. *)
Definition outcome {A} (v : verdict) (a : A) : JS.exn + A :=
  match v with
  | Accepted _ => inr a
  | Duplicate => inl DuplicateOrMisplacedError
  | Misordered => inl OrderError
  end.

(** What a result threw, if it threw. *)
Definition failure {A} (r : JS.exn + A) : option JS.exn :=
  match r with
  | inl e => Some e
  | inr _ => None
  end.

(** Calls in the order of the source's comment,
    [element#id.class[attr]:pseudoClass::pseudoElement]: at most one element,
    at most one id, any number of classes, of attributes and of
    pseudo-classes, at most one pseudo-element. *)
Definition once (k : kind) (value : option string) : list (kind * string) :=
  match value with
  | Some v => [(k, v)]
  | None => []
  end.

Definition inOrder (e i : option string) (cs ats ps : list string) (q : option string)
    : list (kind * string) :=
  once Element e ++ once Id i ++ map (pair Class) cs ++ map (pair Attr) ats
  ++ map (pair PseudoClass) ps ++ once PseudoElement q.

(** Which of these chains the code takes: those that open with an element,
    those without an attribute, and those with neither id nor class. *)
Definition takenInOrder (e i : option string) (cs ats : list string) : bool :=
  match e, ats, i, cs with
  | Some _, _, _, _ => true
  | None, [], _, _ => true
  | None, _ :: _, None, [] => true
  | None, _ :: _, _, _ => false
  end.

(** * Properties *)

(** ** Steps of the monad *)

Lemma bind_inr {A B} (m : M A) (k : A -> M B) h a h' :
  m h = (inr a, h') -> bind m k h = k a h'.
Proof. intros E. unfold bind. now rewrite E. Qed.

Lemma forEach_throw_if {A} (test : A -> bool) (e : JS.exn) (arr : list A) h :
  forEach arr (fun x => if test x then throw e else ret tt) h
  = (if existsb test arr then inl e else inr tt, h).
Proof.
  induction arr as [|x xs IH]; simpl; [reflexivity|].
  unfold bind. destruct (test x); simpl; [reflexivity|]. exact IH.
Qed.

Section AtReference.

Variables (h : gmap nat MyCssSelector) (this : nat) (o : MyCssSelector).
Hypothesis Hthis : h !! this = Some o.

Lemma deref_at : deref this h = (inr o, h).
Proof. unfold deref. now rewrite Hthis. Qed.

Lemma update_at f : update this f h = (inr tt, <[this := f o]> h).
Proof. unfold update. now rewrite (bind_inr _ _ _ _ _ deref_at). Qed.

Lemma rejectIf_at test :
  Selector.rejectIf this test h
  = (if existsb test (selectorsChain o) then inl DuplicateOrMisplacedError else inr tt, h).
Proof.
  unfold Selector.rejectIf. rewrite (bind_inr _ _ _ _ _ deref_at).
  apply forEach_throw_if.
Qed.

Lemma pushChain_at x :
  Selector.pushChain this x h
  = (inr tt, <[this := mkSelector (selectorsChain o ++ [x]) (combinedSelectors o)]> h).
Proof. unfold Selector.pushChain. now rewrite update_at. Qed.

Lemma checkChain_at :
  Selector.checkChain this h
  = (if misordered (collect (selectorsChain o)) then inl OrderError else inr tt, h).
Proof.
  unfold Selector.checkChain. rewrite (bind_inr _ _ _ _ _ deref_at).
  unfold checkOrder. now destruct (misordered _).
Qed.

End AtReference.

Lemma append_at h this o frag :
  h !! this = Some o ->
  (Selector.pushChain this frag ;; Selector.checkChain this ;; ret this) h
  = (if misordered (collect (selectorsChain o ++ [frag])) then inl OrderError else inr this,
     <[this := appended o frag]> h).
Proof.
  intros Hthis.
  rewrite (bind_inr _ _ _ _ _ (pushChain_at _ _ _ Hthis frag)).
  fold (appended o frag).
  assert (Hnew : <[this := appended o frag]> h !! this = Some (appended o frag))
    by apply lookup_insert_eq.
  unfold bind at 1. rewrite (checkChain_at _ _ _ Hnew). simpl.
  now destruct (misordered _).
Qed.

Lemma reject_then_append_at h this o test frag :
  h !! this = Some o ->
  (Selector.rejectIf this test ;; Selector.pushChain this frag ;;
   Selector.checkChain this ;; ret this) h
  = if existsb test (selectorsChain o) then (inl DuplicateOrMisplacedError, h)
    else (if misordered (collect (selectorsChain o ++ [frag])) then inl OrderError
          else inr this,
          <[this := appended o frag]> h).
Proof.
  intros Hthis. unfold bind at 1. rewrite (rejectIf_at _ _ _ Hthis).
  destruct (existsb test _); [reflexivity|]. now apply append_at.
Qed.

(** ** [stringify] *)

Lemma stringify_combined h this o :
  h !! this = Some o -> combinedSelectors o <> [] ->
  Selector.stringify this h = (inr (JS.join (combinedSelectors o) " "), h).
Proof.
  intros Hthis Hne. unfold Selector.stringify.
  rewrite (bind_inr _ _ _ _ _ (deref_at _ _ _ Hthis)).
  destruct (combinedSelectors o); [congruence | reflexivity].
Qed.

Lemma stringify_chain h this o :
  h !! this = Some o -> combinedSelectors o = [] ->
  Selector.stringify this h
  = (inr (JS.join (selectorsChain o) ""), <[this := mkSelector [] []]> h).
Proof.
  intros Hthis He. unfold Selector.stringify.
  rewrite (bind_inr _ _ _ _ _ (deref_at _ _ _ Hthis)).
  rewrite He. simpl.
  rewrite (bind_inr _ _ _ _ _ (update_at _ _ _ Hthis _)).
  now rewrite He.
Qed.

(** ** What [checkOrder] compares *)

(** Each array of [checkOrder] holds [arr.indexOf(sel)] for the entries that
    pass its test, in order. *)
Lemma fold_visit arr l ix :
  fold_left (visit arr) l ix
  = mkIndexes
      (classIndexes ix ++ map (JS.indexOf arr) (List.filter isClass l))
      (attrIndexes ix ++ map (JS.indexOf arr) (List.filter isAttr l))
      (pseudoClassIndexes ix ++ map (JS.indexOf arr) (List.filter isPseudoClass l))
      (pseudoElemIndexes ix ++ map (JS.indexOf arr) (List.filter isPseudoElem l))
      (elemIndexes ix ++ map (JS.indexOf arr) (List.filter isElem l))
      (idIndexes ix ++ map (JS.indexOf arr) (List.filter isId l)).
Proof.
  revert ix. induction l as [|x xs IH]; intros ix; simpl.
  - destruct ix; simpl. now rewrite !app_nil_r.
  - rewrite IH. unfold visit, JS.push. simpl.
    destruct (isClass x), (isAttr x), (isPseudoClass x), (isPseudoElem x),
      (isElem x), (isId x); simpl; rewrite <- ?app_assoc; reflexivity.
Qed.

(** [indexOf] of the first entry passing a test is that entry's position: an
    earlier equal string would pass the test as well. *)
Lemma head_indexOf_filter test arr i :
  head (map (JS.indexOf_from i arr) (List.filter test arr)) = firstIndex_from i test arr.
Proof.
  revert i. induction arr as [|y ys IH]; intros i; simpl; [reflexivity|].
  destruct (test y) eqn:Ty; simpl.
  - now rewrite String.eqb_refl.
  - rewrite <- IH. f_equal. apply map_ext_in. intros x Hx.
    apply filter_In in Hx as [_ Tx].
    destruct (String.eqb_spec y x) as [->|_]; [congruence | reflexivity].
Qed.

Lemma misordered_collect arr : misordered (collect arr) = inverted arr.
Proof.
  unfold collect. rewrite fold_visit. unfold misordered, inverted, firstIndex. simpl.
  unfold JS.indexOf. now rewrite !head_indexOf_filter.
Qed.

Lemma firstIndex_from_app i test l1 l2 :
  firstIndex_from i test (l1 ++ l2)
  = match firstIndex_from i test l1 with
    | Some p => Some p
    | None => firstIndex_from (i + Z.of_nat (length l1)) test l2
    end.
Proof.
  revert i. induction l1 as [|x xs IH]; intros i.
  - simpl. f_equal. lia.
  - cbn [app firstIndex_from length]. destruct (test x); [reflexivity|].
    rewrite IH. destruct (firstIndex_from (i + 1) test xs); [reflexivity|].
    f_equal. lia.
Qed.

Lemma firstIndex_from_None i test l :
  existsb test l = false -> firstIndex_from i test l = None.
Proof.
  revert i. induction l as [|x xs IH]; intros i; simpl; [reflexivity|].
  destruct (test x); simpl; [discriminate | apply IH].
Qed.

Lemma firstIndex_from_Some i test l :
  existsb test l = true ->
  exists p, firstIndex_from i test l = Some p /\ i <= p < i + Z.of_nat (length l).
Proof.
  revert i. induction l as [|x xs IH]; intros i; simpl; [discriminate|].
  destruct (test x); simpl.
  - intros _. exists i. split; [reflexivity | lia].
  - intros E. destruct (IH (i + 1) E) as (p & Hp & Hb). exists p. split; [exact Hp | lia].
Qed.

(** A chain of one fragment is never rejected, whatever the fragment. *)
Lemma inverted_singleton x : inverted [x] = false.
Proof.
  unfold inverted, firstIndex. simpl.
  destruct (isClass x), (isAttr x), (isPseudoClass x), (isPseudoElem x),
    (isElem x), (isId x); reflexivity.
Qed.

(** ** Fragments built from plain values *)

Lemma plain_cons a v :
  plain (String a v) = true <->
  (a <> "."%char /\ a <> ":"%char /\ a <> "#"%char /\ a <> "["%char) /\ plain v = true.
Proof.
  unfold plain. simpl. rewrite !orb_false_r, negb_orb, andb_true_iff, !negb_true_iff.
  rewrite !orb_false_iff.
  repeat match goal with |- context [Ascii.eqb a ?c] => destruct (Ascii.eqb_spec a c) end;
    intuition congruence.
Qed.

Lemma identifierChar_plain a :
  identifierChar a = true ->
  a <> "."%char /\ a <> ":"%char /\ a <> "#"%char /\ a <> "["%char.
Proof.
  intros Ha. repeat split; intros ->; vm_compute in Ha; discriminate.
Qed.

Lemma identifier_plain s : identifier s = true -> plain s = true.
Proof.
  unfold identifier. intros H. apply andb_true_iff in H as [_ H].
  induction s as [|a s IH]; [reflexivity|].
  simpl in H. apply andb_true_iff in H as [Ha Hs].
  apply plain_cons. split; [now apply identifierChar_plain | now apply IH].
Qed.

Lemma plain_app v w : plain v = true -> plain w = true -> plain (v ++ w) = true.
Proof.
  intros Hv Hw. induction v as [|a v IH]; simpl; [exact Hw|].
  apply plain_cons in Hv as [Ha Hv]. apply plain_cons. split; [exact Ha | now apply IH].
Qed.

Lemma prefix_cons c s1 a s2 :
  String.prefix (String c s1) (String a s2) = Ascii.eqb c a && String.prefix s1 s2.
Proof.
  cbn [String.prefix]. destruct (ascii_dec c a) as [->|Hne].
  - now rewrite Ascii.eqb_refl.
  - apply Ascii.eqb_neq in Hne. now rewrite Hne.
Qed.

Lemma prefix_empty s : String.prefix "" s = true.
Proof. now destruct s. Qed.

Lemma prefix_char c a s :
  String.prefix (String c "") (String a s) = Ascii.eqb c a.
Proof. now rewrite prefix_cons, prefix_empty, andb_true_r. Qed.

Lemma includes_char_cons c a s :
  JS.includes (String a s) (String c "") = Ascii.eqb c a || JS.includes s (String c "").
Proof. cbn [JS.includes]. now rewrite prefix_char. Qed.

Lemma includes_char_plain c v :
  In c ["."; ":"; "#"; "["]%char -> plain v = true -> JS.includes v (String c "") = false.
Proof.
  intros Hc Hv. induction v as [|a v IH]; [reflexivity|].
  apply plain_cons in Hv as [Ha Hv]. rewrite includes_char_cons, (IH Hv), orb_false_r.
  apply Ascii.eqb_neq. simpl in Hc. intuition congruence.
Qed.

Lemma match_class_cons cls a s :
  JS.match_class cls (String a s) = existsb (Ascii.eqb a) cls || JS.match_class cls s.
Proof. reflexivity. Qed.

Lemma match_class_plain cls v :
  incl cls ["."; ":"; "#"; "["]%char -> plain v = true -> JS.match_class cls v = false.
Proof.
  intros Hcls Hv. induction v as [|a v IH]; [reflexivity|].
  apply plain_cons in Hv as [Ha Hv]. rewrite match_class_cons, (IH Hv), orb_false_r.
  apply not_true_is_false. intros E. apply existsb_exists in E as (c & Hc & E).
  apply Ascii.eqb_eq in E. subst c. apply Hcls in Hc. simpl in Hc. intuition congruence.
Qed.

Lemma colons_rest_cons a s :
  a <> ":"%char -> JS.match_colons_rest (String a s) = JS.match_colons_rest s.
Proof. intros Ha. simpl. apply Ascii.eqb_neq in Ha. now rewrite Ha. Qed.

Lemma colons_rest_plain v : plain v = true -> JS.match_colons_rest v = false.
Proof.
  intros Hv. induction v as [|a v IH]; [reflexivity|].
  apply plain_cons in Hv as [Ha Hv]. rewrite colons_rest_cons by tauto. now apply IH.
Qed.

Lemma charAt0_plain v : plain v = true -> JS.isChar (JS.charAt v 0) ":" = false.
Proof.
  destruct v as [|a v]; [reflexivity|]. intros Hv. apply plain_cons in Hv. simpl.
  apply Ascii.eqb_neq. tauto.
Qed.

Lemma colons_rest_colon v :
  plain v = true -> JS.match_colons_rest (String ":" v) = false.
Proof.
  intros Hv. cbn [JS.match_colons_rest]. rewrite (colons_rest_plain v Hv), orb_false_r.
  destruct v as [|b v]; [reflexivity|]. apply plain_cons in Hv.
  assert (E : Ascii.eqb b ":" = false) by (apply Ascii.eqb_neq; tauto).
  now rewrite E.
Qed.

Lemma append_cons a s t : String a s ++ t = String a (s ++ t).
Proof. reflexivity. Qed.

Lemma append_empty t : "" ++ t = t.
Proof. reflexivity. Qed.

Lemma charAt_0 a s : JS.charAt (String a s) 0 = Some a.
Proof. reflexivity. Qed.

Lemma charAt_S a s i : JS.charAt (String a s) (S i) = JS.charAt s i.
Proof. reflexivity. Qed.

Ltac special_chars :=
  solve [ simpl; tauto | intros ? ?; simpl in *; tauto | assumption ].

Ltac read_fragment :=
  unfold read, isId, isElem, isClass, isAttr, isPseudoClass, isPseudoElem;
  rewrite ?append_cons, ?append_empty;
  rewrite ?includes_char_cons, ?match_class_cons, ?colons_rest_colon by assumption;
  rewrite ?colons_rest_cons by discriminate;
  rewrite ?includes_char_plain, ?match_class_plain, ?colons_rest_plain by special_chars;
  rewrite ?charAt_S, ?charAt_0;
  rewrite ?charAt0_plain by assumption;
  reflexivity.

Section Readings.

Variable v : string.
Hypothesis Hv : plain v = true.

Lemma read_element : read v = mkReading false true false false false false.
Proof. read_fragment. Qed.

Lemma read_id : read ("#" ++ v) = mkReading true false false false false false.
Proof. read_fragment. Qed.

Lemma read_class : read ("." ++ v) = mkReading false false true false false false.
Proof. read_fragment. Qed.

(** An attribute fragment with a plain value holds none of [.], [:] and
    [#], so it is read as an element as well. *)
Lemma read_attr : read ("[" ++ v ++ "]") = mkReading false true false true false false.
Proof.
  assert (Hv' : plain (v ++ "]") = true) by now apply plain_app.
  read_fragment.
Qed.

Lemma read_pseudoClass : read (":" ++ v) = mkReading false false false false true false.
Proof. read_fragment. Qed.

Lemma read_pseudoElement : read ("::" ++ v) = mkReading false false false false false true.
Proof. read_fragment. Qed.

End Readings.

Lemma firstIndex_read i (as_ : reading -> bool) arr :
  firstIndex_from i (fun s => as_ (read s)) arr = firstRead_from i as_ (map read arr).
Proof.
  revert i. induction arr as [|x xs IH]; intros i; simpl; [reflexivity|].
  now rewrite IH.
Qed.

Lemma inverted_readings arr : inverted arr = invertedReadings (map read arr).
Proof.
  unfold inverted, invertedReadings, firstIndex.
  now rewrite <- !firstIndex_read.
Qed.

(** The outcome of a fragment method in terms of the readings. *)
Lemma append_readings h this o frag :
  h !! this = Some o ->
  (Selector.pushChain this frag ;; Selector.checkChain this ;; ret this) h
  = (if invertedReadings (map read (selectorsChain o ++ [frag])) then inl OrderError
     else inr this,
     <[this := appended o frag]> h).
Proof.
  intros Hthis. rewrite (append_at _ _ _ _ Hthis).
  now rewrite misordered_collect, inverted_readings.
Qed.

(** ** The six fragment methods *)

(** The tests of the opening loops are three of the tests of [checkOrder]. *)
Lemma element_test sel :
  negb (JS.match_class ["."; ":"; ":"; "#"]%char sel) = asElem (read sel).
Proof.
  simpl. unfold isElem. f_equal.
  induction sel as [|a s IH]; [reflexivity|].
  rewrite !match_class_cons, IH. f_equal. simpl. now destruct (Ascii.eqb a ":").
Qed.

Lemma prefix_colon s :
  String.prefix ":" s = match s with String b _ => Ascii.eqb b ":" | EmptyString => false end.
Proof.
  destruct s as [|b s]; [reflexivity|]. rewrite prefix_char. apply Ascii.eqb_sym.
Qed.

Lemma pseudoElement_test sel : JS.includes sel "::" = asPseudoElem (read sel).
Proof.
  simpl. unfold isPseudoElem.
  induction sel as [|a s IH]; [reflexivity|].
  cbn [JS.includes JS.match_colons_rest].
  now rewrite prefix_cons, prefix_colon, IH, (Ascii.eqb_sym ":" a).
Qed.

Lemma existsb_read (test : string -> bool) (as_ : reading -> bool) arr :
  (forall sel, test sel = as_ (read sel)) ->
  existsb test arr = existsb as_ (map read arr).
Proof.
  intros E. induction arr as [|x xs IH]; simpl; [reflexivity|]. now rewrite E, IH.
Qed.

Section Methods.

Variables (h : gmap nat MyCssSelector) (this : nat) (o : MyCssSelector).
Hypothesis Hthis : h !! this = Some o.

Lemma element_at value :
  Selector.element this value h
  = if existsb asElem (map read (selectorsChain o))
    then (inl DuplicateOrMisplacedError, h) else pushed h this o value.
Proof.
  unfold Selector.element. rewrite (reject_then_append_at _ _ _ _ _ Hthis).
  rewrite (existsb_read _ asElem _ element_test).
  destruct (existsb _ _); [reflexivity|].
  now rewrite misordered_collect, inverted_readings.
Qed.

Lemma id_at value :
  Selector.id this value h
  = if existsb asId (map read (selectorsChain o))
    then (inl DuplicateOrMisplacedError, h) else pushed h this o ("#" ++ value).
Proof.
  unfold Selector.id. rewrite (reject_then_append_at _ _ _ _ _ Hthis).
  rewrite (existsb_read _ asId _ (fun _ => eq_refl)).
  destruct (existsb _ _); [reflexivity|].
  now rewrite misordered_collect, inverted_readings.
Qed.

Lemma pseudoElement_at value :
  Selector.pseudoElement this value h
  = if existsb asPseudoElem (map read (selectorsChain o))
    then (inl DuplicateOrMisplacedError, h) else pushed h this o ("::" ++ value).
Proof.
  unfold Selector.pseudoElement. rewrite (reject_then_append_at _ _ _ _ _ Hthis).
  rewrite (existsb_read _ asPseudoElem _ pseudoElement_test).
  destruct (existsb _ _); [reflexivity|].
  now rewrite misordered_collect, inverted_readings.
Qed.

Lemma class_at value : Selector.class this value h = pushed h this o ("." ++ value).
Proof. apply (append_readings _ _ _ _ Hthis). Qed.

Lemma attr_at value : Selector.attr this value h = pushed h this o ("[" ++ value ++ "]").
Proof. apply (append_readings _ _ _ _ Hthis). Qed.

Lemma pseudoClass_at value : Selector.pseudoClass this value h = pushed h this o (":" ++ value).
Proof. apply (append_readings _ _ _ _ Hthis). Qed.

End Methods.

(** The facade hands a fresh, empty builder to the method. *)
Lemma new_at (h : gmap nat MyCssSelector) :
  let this := fresh (dom h) in
  new_MyCssSelector h = (inr this, <[this := mkSelector [] []]> h)
  /\ h !! this = None
  /\ <[this := mkSelector [] []]> h !! this = Some (mkSelector [] []).
Proof.
  split; [reflexivity|]. split.
  - apply not_elem_of_dom. apply is_fresh.
  - apply lookup_insert_eq.
Qed.

(** ** Chains built through the facade *)

Lemma facade_at {A} (method : nat -> M A) (h : gmap nat MyCssSelector) :
  (this <- new_MyCssSelector ;; method this) h
  = method (fresh (dom h)) (<[fresh (dom h) := mkSelector [] []]> h).
Proof. reflexivity. Qed.

(** One call on the builder that was written last: rewrite it with the
    lemma of its method, then decide the two conditions from the readings
    found in the context. *)
Ltac method_at H :=
  first [ rewrite (element_at _ _ _ H) | rewrite (id_at _ _ _ H)
        | rewrite (pseudoElement_at _ _ _ H) | rewrite (class_at _ _ _ H)
        | rewrite (attr_at _ _ _ H) | rewrite (pseudoClass_at _ _ _ H) ].

Ltac use_readings :=
  repeat match goal with
         | R : read ?s = _ |- context [read ?s] => rewrite R
         end.

Ltac decide_readings :=
  cbn [map app selectorsChain combinedSelectors appended];
  use_readings;
  repeat match goal with
         | |- context [existsb ?f ?rs] =>
             let b := eval vm_compute in (existsb f rs) in
             change (existsb f rs) with b
         | |- context [invertedReadings ?rs] =>
             let b := eval vm_compute in (invertedReadings rs) in
             change (invertedReadings rs) with b
         end;
  cbv beta iota.

Ltac call :=
  unfold bind at 1;
  match goal with
  | |- context [?f ?this ?v (<[?this := ?o]> ?h)] =>
      let H := fresh "H" in
      assert (H : <[this := o]> h !! this = Some o) by apply lookup_insert_eq;
      method_at H; clear H
  end;
  unfold pushed; decide_readings.

(** Claim C4.  One fragment of each of the six categories, appended in the
    order element, id, class, attribute, pseudo-class, pseudo-element with
    plain values (identifiers are plain), is accepted at every step, and
    [stringify] returns the six fragments, each with its own prefix,
    concatenated in that order. *)
Theorem allSix_in_order h e i c a pc pe :
  plain e = true -> plain i = true -> plain c = true ->
  plain a = true -> plain pc = true -> plain pe = true ->
  fst (allSix e i c a pc pe h)
  = inr (e ++ ("#" ++ i) ++ ("." ++ c) ++ ("[" ++ a ++ "]") ++ (":" ++ pc) ++ ("::" ++ pe)).
Proof.
  intros He Hi Hc Ha Hpc Hpe.
  pose proof (read_element e He) as Re. pose proof (read_id i Hi) as Ri.
  pose proof (read_class c Hc) as Rc. pose proof (read_attr a Ha) as Ra.
  pose proof (read_pseudoClass pc Hpc) as Rpc.
  pose proof (read_pseudoElement pe Hpe) as Rpe.
  unfold allSix, cssSelectorBuilder.element at 1.
  unfold bind at 1. rewrite facade_at.
  set (this := fresh (dom h)).
  assert (H0 : <[this := mkSelector [] []]> h !! this = Some (mkSelector [] []))
    by apply lookup_insert_eq.
  rewrite (element_at _ _ _ H0). unfold pushed. decide_readings.
  call. call. call. call. call.
  match goal with
  | |- context [Selector.stringify ?this (<[?this := ?o]> ?h)] =>
      rewrite (stringify_chain (<[this := o]> h) this o (lookup_insert_eq _ _ _) eq_refl)
  end.
  reflexivity.
Qed.

Lemma read_class_any c :
  exists i a pc pe, read ("." ++ c) = mkReading i false true a pc pe.
Proof.
  exists (isId ("." ++ c)), (isAttr ("." ++ c)), (isPseudoClass ("." ++ c)),
    (isPseudoElem ("." ++ c)).
  unfold read, isElem, isClass.
  now rewrite append_cons, append_empty, match_class_cons, includes_char_cons.
Qed.

(** Claim C9.  [class(c).element(e)] throws [OrderError], for every class
    value and every plain element value. *)
Theorem classThenElement_rejected h c e :
  plain e = true ->
  fst (classThenElement c e h) = inl OrderError.
Proof.
  intros He. pose proof (read_element e He) as Re.
  destruct (read_class_any c) as (i & a & pc & pe & Rc).
  unfold classThenElement, cssSelectorBuilder.class.
  unfold bind at 1. rewrite facade_at.
  set (this := fresh (dom h)).
  assert (H0 : <[this := mkSelector [] []]> h !! this = Some (mkSelector [] []))
    by apply lookup_insert_eq.
  rewrite (class_at _ _ _ H0). unfold pushed.
  destruct i, a, pc, pe; decide_readings;
    (match goal with
     | |- context [Selector.element ?this ?v (<[?this := ?o]> ?h)] =>
         rewrite (element_at (<[this := o]> h) this o (lookup_insert_eq _ _ _))
     end; unfold pushed; decide_readings; reflexivity).
Qed.

(** ** Duplicates of element, id and pseudo-element *)

Lemma existsb_read_In (as_ : reading -> bool) arr sel :
  In sel arr -> as_ (read sel) = true -> existsb as_ (map read arr) = true.
Proof.
  intros Hin Hs. apply existsb_exists. exists (read sel). split; [|exact Hs].
  now apply in_map.
Qed.

(** Claim C7.  On every builder, appending an element, an id or a
    pseudo-element to a chain that already holds a fragment of the same
    category throws [DuplicateOrMisplacedError]: an element after an element
    of plain value, an id after any id, a pseudo-element after any
    pseudo-element.  The store is left as it was. *)
Theorem second_of_a_kind_rejected h this o old value :
  h !! this = Some o ->
  (plain old = true -> In old (selectorsChain o) ->
   Selector.element this value h = (inl DuplicateOrMisplacedError, h))
  /\ (In ("#" ++ old) (selectorsChain o) ->
      Selector.id this value h = (inl DuplicateOrMisplacedError, h))
  /\ (In ("::" ++ old) (selectorsChain o) ->
      Selector.pseudoElement this value h = (inl DuplicateOrMisplacedError, h)).
Proof.
  intros Hthis. repeat split.
  - intros Hold Hin. rewrite (element_at _ _ _ Hthis).
    rewrite (existsb_read_In asElem _ old Hin); [reflexivity|].
    now rewrite (read_element old Hold).
  - intros Hin. rewrite (id_at _ _ _ Hthis).
    rewrite (existsb_read_In asId _ _ Hin); [reflexivity|].
    simpl. unfold isId. now rewrite ?append_cons, ?append_empty, includes_char_cons.
  - intros Hin. rewrite (pseudoElement_at _ _ _ Hthis).
    rewrite (existsb_read_In asPseudoElem _ _ Hin); [reflexivity|].
    reflexivity.
Qed.

(** Claim C2, amended.  On every builder, [element(value)] throws
    [DuplicateOrMisplacedError] whenever the chain already holds an element
    fragment, that is, a fragment pushed by [element] for an identifier (any
    plain value); it throws before anything is pushed or re-validated, the
    store being left as it was. *)
Theorem element_rejects_second_element h this o value old :
  h !! this = Some o ->
  plain old = true -> In old (selectorsChain o) ->
  Selector.element this value h = (inl DuplicateOrMisplacedError, h).
Proof.
  intros Hthis Hold Hin. rewrite (element_at _ _ _ Hthis).
  rewrite (existsb_read_In asElem _ old Hin); [reflexivity|].
  now rewrite (read_element old Hold).
Qed.

(** After an id and no element, [element] gets past its own loop and is
    stopped by [checkOrder]. *)
Lemma element_after_id_order_error h this o value :
  h !! this = Some o ->
  plain value = true ->
  existsb isElem (selectorsChain o) = false ->
  existsb isId (selectorsChain o) = true ->
  fst (Selector.element this value h) = inl OrderError.
Proof.
  intros Hthis Hv Hno Hid. rewrite (element_at _ _ _ Hthis).
  rewrite <- (existsb_read isElem asElem _ (fun _ => eq_refl)), Hno.
  unfold pushed. rewrite <- inverted_readings. simpl.
  assert (Hlast : JS.lt (firstIndex isId (selectorsChain o ++ [value]))
                        (firstIndex isElem (selectorsChain o ++ [value])) = true).
  { unfold firstIndex. rewrite !firstIndex_from_app.
    destruct (firstIndex_from_Some 0 _ _ Hid) as (p & -> & Hp).
    rewrite (firstIndex_from_None 0 _ _ Hno). simpl.
    pose proof (read_element value Hv) as Rv. injection Rv as _ -> _ _ _ _.
    simpl. apply Z.ltb_lt. lia. }
  unfold inverted. rewrite Hlast, orb_true_r. reflexivity.
Qed.

(** ** [stringify] and [combine] *)

Lemma append_empty_r s : s ++ "" = s.
Proof. induction s as [|a s IH]; [reflexivity|]. now rewrite append_cons, IH. Qed.

(** Joining on the empty separator is plain concatenation. *)
Lemma join_no_separator arr : JS.join arr "" = fold_right String.append "" arr.
Proof.
  unfold JS.join. induction arr as [|x [|y ys] IH]; [reflexivity| |].
  - simpl. now rewrite append_empty_r.
  - change (x ++ "" ++ String.concat "" (y :: ys) = x ++ fold_right String.append "" (y :: ys)).
    now rewrite IH.
Qed.

(** Claim C5.  On a builder whose [combinedSelectors] is empty, [stringify]
    returns the fragments of the chain concatenated in order with nothing
    between them and leaves the chain empty, so that a second [stringify]
    right after it returns the empty string. *)
Theorem stringify_consumes_chain h this o :
  h !! this = Some o -> combinedSelectors o = [] ->
  let h1 := <[this := mkSelector [] []]> h in
  Selector.stringify this h = (inr (fold_right String.append "" (selectorsChain o)), h1)
  /\ Selector.stringify this h1 = (inr "", h1).
Proof.
  intros Hthis He h1. split.
  - rewrite (stringify_chain _ _ _ Hthis He). now rewrite join_no_separator.
  - unfold h1. rewrite (stringify_chain _ this (mkSelector [] []));
      [|apply lookup_insert_eq|reflexivity].
    now rewrite insert_insert_eq.
Qed.

(** Claim C6.  On a builder whose [combinedSelectors] is not empty, any
    number of [stringify] calls in a row all return the same string, the
    buffer joined by single spaces, and leave the store, hence the buffer,
    as it was. *)
Theorem stringify_combined_idempotent h this o n :
  h !! this = Some o -> combinedSelectors o <> [] ->
  times n (Selector.stringify this) h
  = (inr (repeat (JS.join (combinedSelectors o) " ") n), h).
Proof.
  intros Hthis Hne. induction n as [|n IH]; [reflexivity|].
  cbn [times repeat].
  rewrite (bind_inr _ _ _ _ _ (stringify_combined _ _ _ Hthis Hne)).
  now rewrite (bind_inr _ _ _ _ _ IH).
Qed.

(** [stringify] on any allocated builder returns; it may empty that
    builder's chain and changes nothing else. *)
Lemma stringify_returns (h : gmap nat MyCssSelector) x ox :
  h !! x = Some ox ->
  exists text h', Selector.stringify x h = (inr text, h')
    /\ (h' = h \/ h' = <[x := mkSelector [] (combinedSelectors ox)]> h).
Proof.
  intros Hx. destruct (combinedSelectors ox) as [|t ts] eqn:E.
  - eexists _, _. split; [apply (stringify_chain _ _ _ Hx E)|]. now right.
  - eexists _, _. split; [apply (stringify_combined _ _ _ Hx); congruence|]. now left.
Qed.

Lemma stringify_allocated (h : gmap nat MyCssSelector) x text h' :
  Selector.stringify x h = (inr text, h') -> exists ox, h !! x = Some ox.
Proof.
  unfold Selector.stringify, bind, deref. destruct (h !! x) as [ox|]; [eauto | discriminate].
Qed.

Lemma stringify_keeps (h : gmap nat MyCssSelector) x text h' y oy :
  Selector.stringify x h = (inr text, h') ->
  h !! y = Some oy ->
  exists oy', h' !! y = Some oy'
    /\ combinedSelectors oy' = combinedSelectors oy
    /\ (selectorsChain oy' = selectorsChain oy \/ selectorsChain oy' = []).
Proof.
  intros Ex Hy. destruct (stringify_allocated _ _ _ _ Ex) as (ox & Hx).
  destruct (stringify_returns _ _ _ Hx) as (t & h2 & E2 & Hh2).
  rewrite Ex in E2. injection E2 as _ <-.
  destruct Hh2 as [-> | ->]; [exists oy; auto|].
  destruct (decide (x = y)) as [->|Hne].
  - rewrite Hx in Hy. injection Hy as ->. rewrite lookup_insert_eq. eauto.
  - rewrite lookup_insert_ne by exact Hne. exists oy; auto.
Qed.

(** A builder allocated elsewhere does not change what [stringify] does. *)
Lemma stringify_frame (h : gmap nat MyCssSelector) x text h' y oy :
  h !! y = None ->
  Selector.stringify x h = (inr text, h') ->
  Selector.stringify x (<[y := oy]> h) = (inr text, <[y := oy]> h') /\ h' !! y = None.
Proof.
  intros Hy Ex. destruct (stringify_allocated _ _ _ _ Ex) as (ox & Hx).
  assert (Hne : y <> x) by congruence.
  assert (Hx' : <[y := oy]> h !! x = Some ox) by now rewrite lookup_insert_ne.
  destruct (combinedSelectors ox) as [|t ts] eqn:E.
  - rewrite (stringify_chain _ _ _ Hx E) in Ex. injection Ex as <- <-.
    rewrite (stringify_chain _ _ _ Hx' E). split.
    + f_equal. now apply insert_insert_ne.
    + now rewrite lookup_insert_ne.
  - assert (Hc : combinedSelectors ox <> []) by congruence.
    rewrite (stringify_combined _ _ _ Hx Hc) in Ex. injection Ex as <- <-.
    now rewrite (stringify_combined _ _ _ Hx' Hc).
Qed.

(** [combine] on any receiver: the three tokens go to the end of the
    receiver's buffer. *)
Lemma combine_at (h : gmap nat MyCssSelector) this o selector1 combinator selector2
    text1 h1 text2 h2 :
  h !! this = Some o ->
  Selector.stringify selector1 h = (inr text1, h1) ->
  Selector.stringify selector2 h1 = (inr text2, h2) ->
  exists o2, h2 !! this = Some o2
    /\ Selector.combine this selector1 combinator selector2 h
       = (inr this,
          <[this := mkSelector (selectorsChain o2)
                      (combinedSelectors o ++ [text1; combinator; text2])]> h2).
Proof.
  intros Hthis E1 E2.
  destruct (stringify_keeps _ _ _ _ _ _ E1 Hthis) as (o1 & H1 & C1 & _).
  destruct (stringify_keeps _ _ _ _ _ _ E2 H1) as (o2 & H2 & C2 & _).
  exists o2. split; [exact H2|].
  unfold Selector.combine.
  rewrite (bind_inr _ _ _ _ _ (deref_at _ _ _ Hthis)).
  rewrite (bind_inr _ _ _ _ _ E1), (bind_inr _ _ _ _ _ E2).
  rewrite (bind_inr _ _ _ _ _ (update_at _ _ _ H2 _)).
  unfold ret. now rewrite C2, C1.
Qed.

(** Claim C3, amended.  For every receiver, every two builders and every
    combinator string, unchecked, [combine] pushes the text of the first
    operand, the combinator and the text of the second operand, rendered in
    that order, at the end of the receiver's [combinedSelectors], and a
    following [stringify] returns the whole buffer joined by single spaces.
    When the receiver's buffer was empty, as it is on the fresh builder the
    facade calls [combine] on, the buffer is those three tokens and
    [stringify] returns them joined by single spaces. *)
Theorem combine_appends_three_tokens (h : gmap nat MyCssSelector) this o
    selector1 combinator selector2 text1 h1 text2 h2 :
  h !! this = Some o ->
  Selector.stringify selector1 h = (inr text1, h1) ->
  Selector.stringify selector2 h1 = (inr text2, h2) ->
  exists chain' h',
    let buffer := (combinedSelectors o ++ [text1; combinator; text2])%list in
    Selector.combine this selector1 combinator selector2 h = (inr this, h')
    /\ h' !! this = Some (mkSelector chain' buffer)
    /\ Selector.stringify this h' = (inr (JS.join buffer " "), h')
    /\ (combinedSelectors o = [] ->
        buffer = [text1; combinator; text2]
        /\ Selector.stringify this h'
           = (inr (text1 ++ " " ++ combinator ++ " " ++ text2), h')).
Proof.
  intros Hthis E1 E2.
  destruct (combine_at _ _ _ _ combinator _ _ _ _ _ Hthis E1 E2) as (o2 & H2 & Ec).
  eexists (selectorsChain o2), _. cbv zeta.
  assert (Hs : forall h' b, h' !! this = Some (mkSelector (selectorsChain o2) b) ->
               b <> [] -> Selector.stringify this h' = (inr (JS.join b " "), h')).
  { intros h' b Hb Hne. apply (stringify_combined _ _ _ Hb Hne). }
  split; [exact Ec|]. split; [apply lookup_insert_eq|]. split.
  - apply Hs; [apply lookup_insert_eq|]. now destruct (combinedSelectors o).
  - intros He. rewrite He. split; [reflexivity|].
    apply (Hs _ [text1; combinator; text2]); [apply lookup_insert_eq | discriminate].
Qed.

(** [combine] through the facade: the receiver is a fresh builder, so its
    buffer holds the three tokens and nothing else. *)
Lemma facade_combine_three_tokens (h : gmap nat MyCssSelector) selector1 combinator selector2
    text1 h1 text2 h2 :
  Selector.stringify selector1 h = (inr text1, h1) ->
  Selector.stringify selector2 h1 = (inr text2, h2) ->
  let this := fresh (dom h) in
  let h' := <[this := mkSelector [] [text1; combinator; text2]]> h2 in
  cssSelectorBuilder.combine selector1 combinator selector2 h = (inr this, h')
  /\ Selector.stringify this h' = (inr (text1 ++ " " ++ combinator ++ " " ++ text2), h').
Proof.
  intros E1 E2 this h'.
  destruct (new_at h) as (_ & Hfresh & Hnew). fold this in Hfresh, Hnew.
  destruct (stringify_frame _ _ _ _ this (mkSelector [] []) Hfresh E1) as (F1 & Hfresh1).
  destruct (stringify_frame _ _ _ _ this (mkSelector [] []) Hfresh1 E2) as (F2 & _).
  destruct (combine_at _ _ _ _ combinator _ _ _ _ _ Hnew F1 F2) as (o2 & H2 & Ec).
  rewrite lookup_insert_eq in H2. injection H2 as <-.
  split.
  - unfold cssSelectorBuilder.combine. rewrite facade_at. fold this. rewrite Ec.
    simpl. unfold h'. now rewrite insert_insert_eq.
  - apply (stringify_combined h' this (mkSelector [] [text1; combinator; text2]));
      [apply lookup_insert_eq | discriminate].
Qed.

(** [combine] on a receiver other than its first operand leaves that
    operand with an empty chain. *)
Lemma combine_empties_operand (h : gmap nat MyCssSelector) this o s1 o1 combinator s2 :
  h !! this = Some o -> this <> s1 ->
  h !! s1 = Some o1 -> combinedSelectors o1 = [] ->
  is_Some (h !! s2) ->
  exists text2 chain' h',
    Selector.combine this s1 combinator s2 h = (inr this, h')
    /\ h' !! s1 = Some (mkSelector [] [])
    /\ h' !! this
       = Some (mkSelector chain'
                 (combinedSelectors o ++ [JS.join (selectorsChain o1) ""; combinator; text2]))
    /\ (chain' = selectorsChain o \/ chain' = []).
Proof.
  intros Hthis Hne H1 C1 [o2 H2].
  pose proof (stringify_chain _ _ _ H1 C1) as E1.
  set (h1 := <[s1 := mkSelector [] []]> h) in *.
  assert (H11 : h1 !! s1 = Some (mkSelector [] [])) by apply lookup_insert_eq.
  assert (H1this : h1 !! this = Some o) by (unfold h1; now rewrite lookup_insert_ne).
  assert (H12 : is_Some (h1 !! s2)).
  { apply lookup_insert_is_Some. destruct (decide (s1 = s2)); [now left | right; eauto]. }
  destruct H12 as [o2' H12].
  destruct (stringify_returns _ _ _ H12) as (text2 & h2 & E2 & _).
  destruct (combine_at _ _ _ _ combinator _ _ _ _ _ Hthis E1 E2) as (o' & H' & Ec).
  destruct (stringify_keeps _ _ _ _ _ _ E2 H11) as ([ch cb] & H21 & Hcb & Hch).
  simpl in Hcb, Hch. subst cb. assert (ch = []) as -> by (destruct Hch; assumption).
  destruct (stringify_keeps _ _ _ _ _ _ E2 H1this) as (o'' & H'' & _ & Hch').
  rewrite H' in H''. injection H'' as <-.
  eexists text2, _, _. split; [exact Ec|]. split; [|split].
  - now rewrite lookup_insert_ne.
  - apply lookup_insert_eq.
  - exact Hch'.
Qed.

(** Claim C10, amended.  For every builder [s1] whose [combinedSelectors]
    is empty, after [combine(s1, c, s2)] on a receiver other than [s1], which
    every call through the facade is, [s1.stringify()] returns the empty
    string and changes nothing. *)
Theorem combine_consumes_first_operand (h : gmap nat MyCssSelector) this o s1 o1
    combinator s2 :
  h !! this = Some o -> this <> s1 ->
  h !! s1 = Some o1 -> combinedSelectors o1 = [] ->
  is_Some (h !! s2) ->
  exists h',
    Selector.combine this s1 combinator s2 h = (inr this, h')
    /\ Selector.stringify s1 h' = (inr "", h').
Proof.
  intros Hthis Hne H1 C1 H2.
  destruct (combine_empties_operand _ _ _ _ _ combinator _ Hthis Hne H1 C1 H2)
    as (text2 & chain' & h' & Ec & H1' & _ & _).
  exists h'. split; [exact Ec|].
  rewrite (stringify_chain _ _ _ H1' eq_refl). f_equal. now apply insert_id.
Qed.

(** Through the facade the receiver is fresh, hence another builder than the
    operand. *)
Lemma facade_combine_consumes_operand (h : gmap nat MyCssSelector) s1 o1 combinator s2 :
  h !! s1 = Some o1 -> combinedSelectors o1 = [] ->
  is_Some (h !! s2) ->
  exists this text2 h',
    cssSelectorBuilder.combine s1 combinator s2 h = (inr this, h')
    /\ h' !! this
       = Some (mkSelector [] [JS.join (selectorsChain o1) ""; combinator; text2])
    /\ fst (Selector.stringify s1 h') = inr "".
Proof.
  intros H1 C1 H2.
  destruct (new_at h) as (_ & Hfresh & Hnew).
  set (this := fresh (dom h)) in *. set (h0 := <[this := mkSelector [] []]> h) in *.
  assert (Hne : this <> s1) by congruence.
  assert (H01 : h0 !! s1 = Some o1) by (unfold h0; now rewrite lookup_insert_ne).
  assert (H02 : is_Some (h0 !! s2)).
  { apply lookup_insert_is_Some. destruct (decide (this = s2)); [now left | now right]. }
  destruct (combine_empties_operand _ _ _ _ _ combinator _ Hnew Hne H01 C1 H02)
    as (text2 & chain' & h' & Ec & H1' & Hthis' & Hch).
  assert (chain' = []) as -> by (destruct Hch; assumption).
  exists this, text2, h'. split; [|split].
  - unfold cssSelectorBuilder.combine. now rewrite facade_at.
  - exact Hthis'.
  - now rewrite (stringify_chain _ _ _ H1' eq_refl).
Qed.

(** ** Chains that [checkOrder] misjudges *)

(** Claim C1, where the code departs from it.  The claim: a chain is accepted
    only if the first occurrences of the categories present follow the
    order element, id, class, attribute, pseudo-class, pseudo-element, and
    any inversion raises [OrderError].  The code: in
    [pseudoElement('after').class('x')] the pseudo-element comes first, at
    index 0, and the class second, at index 1; [checkOrder] never compares
    [pseudoElemIndexes[0]] with [classIndexes[0]], nothing is thrown, and
    [stringify] returns ['::after.x']. *)
Theorem pseudoElementThenClass_accepted :
  run pseudoElementThenClass = inr "::after.x"
  /\ collect ["::after"; ".x"] = mkIndexes [1] [] [] [0] [] [].
Proof. split; vm_compute; reflexivity. Qed.

(** Claim C8, where the code departs from it.  The claim: categories absent
    from the chain are skipped, so a chain whose present categories are in
    order is never rejected, as in
    [id('main').class('container').class('editable')], which gives
    ['#main.container.editable'].  The code: that chain is accepted, but
    [id('main').attr('href')] throws [OrderError] although no element is
    present and the id precedes the attribute: ['[href]'] holds none of [.],
    [:] and [#], so [checkOrder] files it under [elemIndexes] too and finds
    the id, at index 0, before an element, at index 1. *)
Theorem idThenAttr_rejected :
  run idThenAttr = inl OrderError
  /\ collect ["#main"; "[href]"] = mkIndexes [] [1] [] [] [1] [0]
  /\ run idThenClasses = inr "#main.container.editable".
Proof. repeat split; vm_compute; reflexivity. Qed.

(** Claim C2 as stated fails: after [id('main')] the chain holds an id
    fragment, and [element('a')] throws [OrderError], not
    [DuplicateOrMisplacedError]. *)
Lemma element_after_id_not_duplicate :
  let h := snd (cssSelectorBuilder.id "main" ∅) in
  h !! 0%nat = Some (mkSelector ["#main"] [])
  /\ fst (Selector.element 0%nat "a" h) = inl OrderError
  /\ OrderError <> DuplicateOrMisplacedError.
Proof. repeat split; try (vm_compute; reflexivity). discriminate. Qed.

(** Claim C3 as stated fails on a receiver that has combined before. *)
Lemma combine_on_combined_builder :
  let h : gmap nat MyCssSelector :=
    <[2%nat := mkSelector [] ["a"; "+"; "b"]]>
      (<[1%nat := mkSelector ["d"] []]> (<[0%nat := mkSelector ["c"] []]> ∅)) in
  let h1 := snd (Selector.stringify 0%nat h) in
  let h2 := snd (Selector.stringify 1%nat h1) in
  let h' := snd (Selector.combine 2%nat 0%nat ">" 1%nat h) in
  Selector.stringify 0%nat h = (inr "c", h1)
  /\ Selector.stringify 1%nat h1 = (inr "d", h2)
  /\ fst (Selector.combine 2%nat 0%nat ">" 1%nat h) = inr 2%nat
  /\ combinedSelectors <$> h' !! 2%nat = Some ["a"; "+"; "b"; "c"; ">"; "d"]
  /\ combinedSelectors <$> h' !! 2%nat <> Some ["c"; ">"; "d"]
  /\ fst (Selector.stringify 2%nat h') = inr "a + b c > d"
  /\ fst (Selector.stringify 2%nat h') <> inr "c > d".
Proof.
  repeat split; try (vm_compute; reflexivity); vm_compute; discriminate.
Qed.

(** Claim C10 as stated fails when [combine] is called on [s1] itself: [s1]
    then holds the combined buffer and [stringify] returns it. *)
Lemma combine_on_its_operand :
  let h : gmap nat MyCssSelector :=
    <[1%nat := mkSelector ["p"] []]> (<[0%nat := mkSelector ["div"] []]> ∅) in
  let h' := snd (Selector.combine 0%nat 0%nat "+" 1%nat h) in
  h !! 0%nat = Some (mkSelector ["div"] [])
  /\ fst (Selector.combine 0%nat 0%nat "+" 1%nat h) = inr 0%nat
  /\ fst (Selector.stringify 0%nat h') = inr "div + p"
  /\ fst (Selector.stringify 0%nat h') <> inr "".
Proof.
  repeat split; try (vm_compute; reflexivity); vm_compute; discriminate.
Qed.

(** ** Runs of the examples in the source's comment, and of [combine] on used builders *)

Example combineTwo_runs : run combineTwo = inr "div#main + table#data".
Proof. vm_compute. reflexivity. Qed.

Example combineNested_runs :
  run combineNested
  = inr "div#main.container.draggable + table#data ~ tr:nth-of-type(even)   td:nth-of-type(even)".
Proof. vm_compute. reflexivity. Qed.

Example combineOnOperand_runs : run combineOnOperand = inr "div + p".
Proof. vm_compute. reflexivity. Qed.

Example combineTwice_runs : run combineTwice = inr "a + b c > d".
Proof. vm_compute. reflexivity. Qed.

(** ** Instances *)

Lemma allSix_in_order_example :
  run (allSix "a" "main" "x" "href" "focus" "before") = inr "a#main.x[href]:focus::before".
Proof.
  exact (allSix_in_order ∅ "a" "main" "x" "href" "focus" "before"
           eq_refl eq_refl eq_refl eq_refl eq_refl eq_refl).
Defined.

Lemma classThenElement_rejected_example :
  run (classThenElement "x" "a") = inl OrderError.
Proof. exact (classThenElement_rejected ∅ "x" "a" eq_refl). Defined.

Lemma element_rejects_second_element_example :
  let h : gmap nat MyCssSelector := <[0%nat := mkSelector ["div"; ".x"] []]> ∅ in
  Selector.element 0%nat "span" h = (inl DuplicateOrMisplacedError, h).
Proof.
  intros h.
  apply (element_rejects_second_element h 0%nat (mkSelector ["div"; ".x"] []) "span" "div").
  - reflexivity.
  - reflexivity.
  - simpl. tauto.
Defined.

Lemma second_of_a_kind_rejected_example :
  let h : gmap nat MyCssSelector := <[0%nat := mkSelector ["x"; "#x"; "::x"] []]> ∅ in
  Selector.element 0%nat "y" h = (inl DuplicateOrMisplacedError, h)
  /\ Selector.id 0%nat "y" h = (inl DuplicateOrMisplacedError, h)
  /\ Selector.pseudoElement 0%nat "y" h = (inl DuplicateOrMisplacedError, h).
Proof.
  intros h.
  destruct (second_of_a_kind_rejected h 0%nat (mkSelector ["x"; "#x"; "::x"] []) "x" "y"
              eq_refl) as (He & Hi & Hp).
  split; [|split].
  - apply He; [reflexivity | simpl; tauto].
  - apply Hi. simpl. tauto.
  - apply Hp. simpl. tauto.
Defined.

Lemma stringify_consumes_chain_example :
  let h : gmap nat MyCssSelector := <[0%nat := mkSelector ["#main"; ".x"] []]> ∅ in
  let h1 : gmap nat MyCssSelector := <[0%nat := mkSelector [] []]> h in
  Selector.stringify 0%nat h = (inr "#main.x", h1)
  /\ Selector.stringify 0%nat h1 = (inr "", h1).
Proof.
  exact (stringify_consumes_chain (<[0%nat := mkSelector ["#main"; ".x"] []]> ∅) 0%nat
           (mkSelector ["#main"; ".x"] []) eq_refl eq_refl).
Defined.

Lemma stringify_combined_idempotent_example :
  let h : gmap nat MyCssSelector := <[0%nat := mkSelector [] ["a"; "+"; "b"]]> ∅ in
  times 3 (Selector.stringify 0%nat) h = (inr ["a + b"; "a + b"; "a + b"], h).
Proof.
  intros h.
  apply (stringify_combined_idempotent h 0%nat (mkSelector [] ["a"; "+"; "b"]) 3).
  - reflexivity.
  - discriminate.
Defined.

Lemma combine_appends_three_tokens_example :
  let h := snd ((p <- twoSelectors ;; new_MyCssSelector) ∅) in
  exists chain' h',
    Selector.combine 2%nat 0%nat "+" 1%nat h = (inr 2%nat, h')
    /\ h' !! 2%nat = Some (mkSelector chain' ["div#main"; "+"; "table#data"])
    /\ Selector.stringify 2%nat h' = (inr "div#main + table#data", h').
Proof.
  intros h.
  destruct (combine_appends_three_tokens h 2%nat (mkSelector [] []) 0%nat "+" 1%nat
              "div#main" (snd (Selector.stringify 0%nat h)) "table#data"
              (snd (Selector.stringify 1%nat (snd (Selector.stringify 0%nat h)))))
    as (chain' & h' & Ec & Hb & _ & Hempty).
  - vm_compute. reflexivity.
  - vm_compute. reflexivity.
  - vm_compute. reflexivity.
  - exists chain', h'. split; [exact Ec|]. split; [exact Hb|].
    apply Hempty. reflexivity.
Defined.

Lemma combine_consumes_first_operand_example :
  let h : gmap nat MyCssSelector :=
    <[2%nat := mkSelector [] []]>
      (<[1%nat := mkSelector ["p"] []]> (<[0%nat := mkSelector ["div"] []]> ∅)) in
  exists h',
    Selector.combine 2%nat 0%nat "+" 1%nat h = (inr 2%nat, h')
    /\ Selector.stringify 0%nat h' = (inr "", h').
Proof.
  intros h.
  apply (combine_consumes_first_operand h 2%nat (mkSelector [] []) 0%nat
           (mkSelector ["div"] []) "+" 1%nat).
  - reflexivity.
  - discriminate.
  - reflexivity.
  - reflexivity.
  - exists (mkSelector ["p"] []). reflexivity.
Defined.

(** * Further properties of the code *)

(** ** [checkOrder] on its own *)

Lemma firstIndex_from_bounds i test l p :
  firstIndex_from i test l = Some p -> i <= p < i + Z.of_nat (length l).
Proof.
  revert i. induction l as [|x xs IH]; intros i; simpl; [discriminate|].
  destruct (test x).
  - intros [= <-]. lia.
  - intros E. apply IH in E. lia.
Qed.

Lemma firstIndex_push test arr x :
  firstIndex test (arr ++ [x])
  = match firstIndex test arr with
    | Some p => Some p
    | None => if test x then Some (Z.of_nat (length arr)) else None
    end.
Proof.
  unfold firstIndex. rewrite firstIndex_from_app.
  destruct (firstIndex_from 0 test arr); [reflexivity|]. simpl. now destruct (test x).
Qed.

Lemma lt_push (testX testY : string -> bool) arr x :
  JS.lt (firstIndex testX (arr ++ [x])) (firstIndex testY (arr ++ [x]))
  = JS.lt (firstIndex testX arr) (firstIndex testY arr)
    || existsb testX arr && negb (existsb testY arr) && testY x.
Proof.
  rewrite !firstIndex_push. unfold firstIndex.
  destruct (existsb testX arr) eqn:EX, (existsb testY arr) eqn:EY.
  - destruct (firstIndex_from_Some 0 _ _ EX) as (p & -> & _).
    destruct (firstIndex_from_Some 0 _ _ EY) as (q & -> & _).
    now rewrite orb_false_r.
  - destruct (firstIndex_from_Some 0 _ _ EX) as (p & -> & Hp).
    rewrite (firstIndex_from_None 0 _ _ EY). simpl.
    destruct (testY x); simpl; [|reflexivity]. apply Z.ltb_lt. lia.
  - destruct (firstIndex_from_Some 0 _ _ EY) as (q & -> & Hq).
    rewrite (firstIndex_from_None 0 _ _ EX). simpl.
    destruct (testX x); simpl; [|reflexivity]. apply Z.ltb_ge. lia.
  - rewrite (firstIndex_from_None 0 _ _ EX), (firstIndex_from_None 0 _ _ EY). simpl.
    destruct (testX x), (testY x); simpl; try reflexivity. apply Z.ltb_irrefl.
Qed.

Lemma seen_read (as_ : reading -> bool) arr :
  (forall r s, as_ (either r s) = as_ r || as_ s) -> as_ noReading = false ->
  as_ (seen (map read arr)) = existsb (fun s => as_ (read s)) arr.
Proof.
  intros Hor Hno. induction arr as [|x xs IH]; simpl; [exact Hno|]. now rewrite Hor, IH.
Qed.

Lemma orb_nine_pairs (a1 a2 a3 a4 a5 a6 a7 a8 a9 c1 c2 c3 c4 c5 c6 c7 c8 c9 : bool) :
  (a1 || c1) || (a2 || c2) || (a3 || c3) || (a4 || c4) || (a5 || c5) || (a6 || c6)
  || (a7 || c7) || (a8 || c8) || (a9 || c9)
  = (a1 || a2 || a3 || a4 || a5 || a6 || a7 || a8 || a9)
    || (c1 || c2 || c3 || c4 || c5 || c6 || c7 || c8 || c9).
Proof. apply eq_true_iff_eq. rewrite !orb_true_iff. tauto. Qed.

Lemma inverted_push arr x :
  inverted (arr ++ [x]) = inverted arr || clash (seen (map read arr)) (read x).
Proof.
  unfold inverted. rewrite !lt_push, orb_nine_pairs. unfold clash.
  now rewrite !seen_read by reflexivity.
Qed.

(** [checkOrder] throws exactly when one of its nine comparisons holds
    between the positions at which categories first occur: that it pushes
    [arr.indexOf(arr[i])] and not [i] makes no difference, also when the
    array holds the same string twice. *)
Theorem checkOrder_compares_first_positions arr :
  checkOrder arr = if inverted arr then inl OrderError else inr tt.
Proof. unfold checkOrder. now rewrite misordered_collect. Qed.

(** An array of at most one string is never rejected, whatever the string. *)
Theorem checkOrder_short arr :
  (length arr <= 1)%nat -> checkOrder arr = inr tt.
Proof.
  intros Hlen. unfold checkOrder. rewrite misordered_collect.
  destruct arr as [|x [|y ys]]; [reflexivity | now rewrite inverted_singleton |].
  simpl in Hlen. lia.
Qed.

(** After a push, [checkOrder] throws if it threw before the push, or if the
    pushed string is the first of a category while a category that one of
    the nine comparisons wants after it is in the array already; otherwise
    it returns. *)
Theorem checkOrder_push arr x :
  checkOrder (JS.push arr x)
  = if clash (seen (map read arr)) (read x) then inl OrderError else checkOrder arr.
Proof.
  unfold checkOrder, JS.push. rewrite !misordered_collect, inverted_push.
  destruct (inverted arr), (clash _ _); reflexivity.
Qed.

Lemma inverted_app arr more : inverted arr = true -> inverted (arr ++ more) = true.
Proof.
  intros H. induction more as [|x xs IH] using rev_ind.
  - now rewrite app_nil_r.
  - rewrite app_assoc, inverted_push, IH. reflexivity.
Qed.

(** A rejected array stays rejected whatever is pushed after it; put the
    other way, every array that [checkOrder] accepts has all its prefixes
    accepted. *)
Theorem checkOrder_rejection_persists arr more :
  checkOrder arr = inl OrderError -> checkOrder (arr ++ more) = inl OrderError.
Proof.
  unfold checkOrder. rewrite !misordered_collect.
  destruct (inverted arr) eqn:E; [|discriminate].
  intros _. now rewrite (inverted_app _ _ E).
Qed.

Lemma checkOrder_short_example : checkOrder ["::a.b#c[d]:e"] = inr tt.
Proof. apply checkOrder_short. simpl. lia. Defined.

Lemma checkOrder_rejection_persists_example :
  checkOrder ([".x"; "a"] ++ ["#main"; "::after"]) = inl OrderError.
Proof. apply checkOrder_rejection_persists. vm_compute. reflexivity. Defined.

(** ** One call on a builder *)

Lemma perform_at (h : gmap nat MyCssSelector) this o c :
  h !! this = Some o ->
  perform this c h
  = if barred (fst c) (map read (selectorsChain o))
    then (inl DuplicateOrMisplacedError, h)
    else pushed h this o (fragment (fst c) (snd c)).
Proof.
  intros Hthis. destruct c as [[] v]; unfold perform; simpl.
  - apply (element_at _ _ _ Hthis).
  - apply (id_at _ _ _ Hthis).
  - apply (class_at _ _ _ Hthis).
  - apply (attr_at _ _ _ Hthis).
  - apply (pseudoClass_at _ _ _ Hthis).
  - apply (pseudoElement_at _ _ _ Hthis).
Qed.

Lemma pushed_inverted h this o frag :
  pushed h this o frag
  = (if inverted (selectorsChain o ++ [frag]) then inl OrderError else inr this,
     <[this := appended o frag]> h).
Proof. unfold pushed. now rewrite inverted_readings. Qed.

Lemma perform_cases (h : gmap nat MyCssSelector) this o c r h' :
  h !! this = Some o ->
  perform this c h = (r, h') ->
  (r = inl DuplicateOrMisplacedError /\ h' = h)
  \/ ((r = inr this \/ r = inl OrderError)
      /\ h' = <[this := mkSelector (selectorsChain o ++ [fragment (fst c) (snd c)])
                          (combinedSelectors o)]> h).
Proof.
  intros Hthis. rewrite (perform_at _ _ _ _ Hthis).
  destruct (barred _ _).
  - intros [= <- <-]. now left.
  - rewrite pushed_inverted. destruct (inverted _); intros [= <- <-]; right; auto.
Qed.

(** Any of the six fragment calls on a builder ends in one of three ways.
    It throws [DuplicateOrMisplacedError] and the store is what it was; or it
    pushes its fragment at the end of the receiver's chain and returns the
    receiver; or it pushes its fragment and throws [OrderError], the fragment
    staying in the chain.  It never touches [combinedSelectors], an earlier
    fragment or another builder. *)
Theorem perform_outcome (h : gmap nat MyCssSelector) this o c r h' :
  h !! this = Some o ->
  perform this c h = (r, h') ->
  (r = inl DuplicateOrMisplacedError /\ h' = h)
  \/ ((r = inr this \/ r = inl OrderError)
      /\ h' = <[this := mkSelector (selectorsChain o ++ [fragment (fst c) (snd c)])
                          (combinedSelectors o)]> h).
Proof. apply perform_cases. Qed.

Lemma perform_outcome_example :
  let h : gmap nat MyCssSelector := <[0%nat := mkSelector [".x"] ["kept"]]> ∅ in
  let out := perform 0%nat (Element, "a") h in
  fst out = inl OrderError
  /\ snd out = <[0%nat := mkSelector [".x"; "a"] ["kept"]]> h.
Proof.
  intros h out.
  destruct (perform_outcome h 0%nat (mkSelector [".x"] ["kept"]) (Element, "a")
              (fst out) (snd out) eq_refl (surjective_pairing out))
    as [[Hr _] | [_ Hh]].
  - vm_compute in Hr. discriminate Hr.
  - split; [vm_compute; reflexivity | exact Hh].
Defined.

Lemma invertedReadings_singleton r : invertedReadings [r] = false.
Proof. destruct r as [[] [] [] [] [] []]; reflexivity. Qed.

Lemma start_at (h : gmap nat MyCssSelector) c :
  start c h
  = (inr (fresh (dom h)),
     <[fresh (dom h) := mkSelector [fragment (fst c) (snd c)] []]> h).
Proof.
  destruct (new_at h) as (_ & _ & Hnew).
  assert (E : start c h = perform (fresh (dom h)) c (<[fresh (dom h) := mkSelector [] []]> h)).
  { destruct c as [[] v]; reflexivity. }
  rewrite E, (perform_at _ _ _ _ Hnew). simpl selectorsChain.
  replace (barred (fst c) (map read [])) with false by now destruct (fst c).
  unfold pushed. simpl. rewrite invertedReadings_singleton.
  now rewrite insert_insert_eq.
Qed.

(** Through the facade the first fragment is always accepted: each of the
    six entry points, for every value, returns a fresh builder whose chain is
    that one fragment, and leaves every other builder alone. *)
Theorem start_accepts (h : gmap nat MyCssSelector) c :
  start c h
  = (inr (fresh (dom h)),
     <[fresh (dom h) := mkSelector [fragment (fst c) (snd c)] []]> h).
Proof. apply start_at. Qed.

Lemma append_associative s t u : (s ++ t) ++ u = s ++ (t ++ u).
Proof. induction s as [|a s IH]; [reflexivity|]. now rewrite !append_cons, IH. Qed.

Lemma concatenation_app l1 l2 :
  fold_right String.append "" (l1 ++ l2)
  = fold_right String.append "" l1 ++ fold_right String.append "" l2.
Proof.
  induction l1 as [|x xs IH]; [reflexivity|].
  cbn [app fold_right]. now rewrite IH, append_associative.
Qed.

(** A fragment that [checkOrder] rejected is in the chain all the same: a
    caller that catches the [OrderError] and calls [stringify] gets the old
    fragments followed by the rejected one. *)
Theorem rejected_fragment_is_rendered (h : gmap nat MyCssSelector) this o c h' :
  h !! this = Some o -> combinedSelectors o = [] ->
  perform this c h = (inl OrderError, h') ->
  fst (Selector.stringify this h')
  = inr (fold_right String.append "" (selectorsChain o) ++ fragment (fst c) (snd c)).
Proof.
  intros Hthis Hc E.
  destruct (perform_cases _ _ _ _ _ _ Hthis E) as [[Hr _] | [_ ->]]; [discriminate|].
  rewrite (stringify_chain _ this (mkSelector (selectorsChain o ++ [fragment (fst c) (snd c)])
                                     (combinedSelectors o)));
    [|apply lookup_insert_eq|exact Hc].
  cbn [fst selectorsChain]. rewrite join_no_separator, concatenation_app.
  cbn [fold_right]. now rewrite append_empty_r.
Qed.

Lemma rejected_fragment_is_rendered_example :
  let h : gmap nat MyCssSelector := <[0%nat := mkSelector [".x"] []]> ∅ in
  fst (Selector.stringify 0%nat (snd (perform 0%nat (Element, "a") h))) = inr ".xa".
Proof.
  intros h.
  apply (rejected_fragment_is_rendered h 0%nat (mkSelector [".x"] []) (Element, "a")).
  - reflexivity.
  - reflexivity.
  - vm_compute. reflexivity.
Defined.

(** ** Several calls on a builder *)

Lemma afterAll_cons this c cs (h : gmap nat MyCssSelector) :
  afterAll this (c :: cs) h = afterAll this cs (snd (perform this c h)).
Proof. reflexivity. Qed.

(** An invariant of the receiver that every call keeps is kept by any
    number of calls, thrown errors being caught. *)
Lemma afterAll_invariant (P : MyCssSelector -> Prop) this (cs : list (kind * string)) :
  (forall c o, In c cs -> P o ->
     barred (fst c) (map read (selectorsChain o)) = false ->
     P (appended o (fragment (fst c) (snd c)))) ->
  forall (h : gmap nat MyCssSelector) o, h !! this = Some o -> P o ->
  exists o', afterAll this cs h !! this = Some o' /\ P o'.
Proof.
  induction cs as [|c cs IH]; intros Hstep h o Hthis HP; [exists o; auto|].
  rewrite afterAll_cons.
  pose proof (perform_at _ _ _ c Hthis) as E.
  destruct (barred (fst c) (map read (selectorsChain o))) eqn:Eb.
  - rewrite E. simpl. apply (IH (fun c' o' Hc' => Hstep c' o' (or_intror Hc')) _ _ Hthis HP).
  - rewrite E. unfold pushed. simpl.
    apply (IH (fun c' o' Hc' => Hstep c' o' (or_intror Hc')) _ _ (lookup_insert_eq _ _ _)).
    apply (Hstep c o (or_introl eq_refl) HP Eb).
Qed.

Lemma inverted_throws (h : gmap nat MyCssSelector) this o c :
  h !! this = Some o -> inverted (selectorsChain o) = true ->
  fst (perform this c h) = inl DuplicateOrMisplacedError
  \/ fst (perform this c h) = inl OrderError.
Proof.
  intros Hthis Hinv. rewrite (perform_at _ _ _ _ Hthis).
  destruct (barred _ _); [now left|]. right.
  now rewrite pushed_inverted, (inverted_app _ _ Hinv).
Qed.

(** After an [OrderError], and for as long as nothing but fragment calls
    is made on the builder, the builder takes no fragment any more: whatever
    fragment calls follow on it, their errors being caught, each one throws.
    (A [stringify] on the builder empties the chain and ends this.) *)
Theorem rejected_builder_stays_rejected (h : gmap nat MyCssSelector) this o c0 h1 cs c :
  h !! this = Some o ->
  perform this c0 h = (inl OrderError, h1) ->
  fst (perform this c (afterAll this cs h1)) = inl DuplicateOrMisplacedError
  \/ fst (perform this c (afterAll this cs h1)) = inl OrderError.
Proof.
  intros Hthis E0.
  assert (H1 : exists o1, h1 !! this = Some o1 /\ inverted (selectorsChain o1) = true).
  { rewrite (perform_at _ _ _ _ Hthis) in E0. destruct (barred _ _); [discriminate|].
    rewrite pushed_inverted in E0.
    destruct (inverted _) eqn:Einv; [|discriminate]. injection E0 as <-.
    eexists. split; [apply lookup_insert_eq | exact Einv]. }
  destruct H1 as (o1 & H1 & Hinv).
  destruct (afterAll_invariant (fun o' => inverted (selectorsChain o') = true) this cs)
    with (h := h1) (o := o1) as (o' & H' & Hinv'); auto.
  - intros c' o' _ Ho' _. simpl. now apply inverted_app.
  - now apply (inverted_throws _ _ _ _ H').
Qed.

Lemma rejected_builder_stays_rejected_example :
  let h : gmap nat MyCssSelector := <[0%nat := mkSelector [".x"] []]> ∅ in
  let h1 := snd (perform 0%nat (Element, "a") h) in
  let h2 := afterAll 0%nat [(Id, "main"); (Id, "other")] h1 in
  fst (perform 0%nat (PseudoClass, "hover") h2) = inl DuplicateOrMisplacedError
  \/ fst (perform 0%nat (PseudoClass, "hover") h2) = inl OrderError.
Proof.
  intros h h1 h2.
  apply (rejected_builder_stays_rejected h 0%nat (mkSelector [".x"] []) (Element, "a")).
  - reflexivity.
  - vm_compute. reflexivity.
Defined.

Lemma performAll_returned (cs : list (kind * string)) :
  forall (h : gmap nat MyCssSelector) this o b h',
  h !! this = Some o ->
  performAll this cs h = (inr b, h') ->
  b = this
  /\ h' !! this
     = Some (mkSelector (selectorsChain o ++ map (fun c => fragment (fst c) (snd c)) cs)
               (combinedSelectors o)).
Proof.
  induction cs as [|c cs IH]; intros h this o b h' Hthis E.
  - injection E as <- <-. rewrite app_nil_r. now destruct o.
  - cbn [performAll] in E. unfold bind in E.
    destruct (perform this c h) as [r h1] eqn:Ec.
    destruct (perform_cases _ _ _ _ _ _ Hthis Ec) as [[-> _] | [[-> | ->] ->]];
      try discriminate.
    destruct (IH _ _ _ _ _ (lookup_insert_eq _ _ _) E) as (-> & Hl).
    split; [reflexivity|]. rewrite Hl. simpl. now rewrite <- app_assoc.
Qed.

(** When a chain of calls started on the facade and closed by [stringify]
    returns, it returns the fragments of the calls, each as its method
    writes it, concatenated in the order of the calls, whatever the
    values. *)
Theorem build_renders_calls (cs : list (kind * string)) (h : gmap nat MyCssSelector) text h' :
  build cs h = (inr text, h') ->
  text = fold_right String.append "" (map (fun c => fragment (fst c) (snd c)) cs).
Proof.
  destruct cs as [|c cs]; intros E.
  - unfold build, cssSelectorBuilder.stringify in E. rewrite facade_at in E.
    rewrite (stringify_chain _ _ (mkSelector [] []) (lookup_insert_eq _ _ _) eq_refl) in E.
    injection E as <- _. reflexivity.
  - cbn [build] in E. unfold bind in E. rewrite start_at in E.
    destruct (performAll _ cs _) as [[e|b] h1] eqn:Ep; [discriminate|].
    destruct (performAll_returned _ _ _ _ _ _ (lookup_insert_eq _ _ _) Ep) as (-> & Hl).
    rewrite (stringify_chain _ _ _ Hl eq_refl), join_no_separator in E.
    injection E as <- _. reflexivity.
Qed.

Lemma build_renders_calls_example :
  "a[href]:focus" = fold_right String.append ""
                      (map (fun c => fragment (fst c) (snd c))
                         [(Element, "a"); (Attr, "href"); (PseudoClass, "focus")]).
Proof.
  apply (build_renders_calls [(Element, "a"); (Attr, "href"); (PseudoClass, "focus")] ∅
           "a[href]:focus"
           (snd (build [(Element, "a"); (Attr, "href"); (PseudoClass, "focus")] ∅))).
  vm_compute. reflexivity.
Defined.

(** ** At most one element, one id, one pseudo-element *)

Lemma read_fragment k v : plain v = true -> read (fragment k v) = readingOf k.
Proof.
  intros Hv. destruct k; simpl fragment.
  - now apply read_element.
  - now apply read_id.
  - now apply read_class.
  - now apply read_attr.
  - now apply read_pseudoClass.
  - now apply read_pseudoElement.
Qed.

Lemma plain_fragment k v : plain (fragment k v) = true -> k = Element.
Proof.
  destruct k; simpl fragment; [reflexivity| | | | |];
    rewrite ?append_cons, ?append_empty; intros H; apply plain_cons in H; tauto.
Qed.

Lemma count_push test l x :
  count test (l ++ [x]) = (count test l + if test x then 1 else 0)%nat.
Proof.
  unfold count. rewrite List.filter_app, length_app. simpl. now destruct (test x).
Qed.

Lemma count_none (as_ : reading -> bool) l :
  existsb as_ (map read l) = false -> count (fun s => as_ (read s)) l = 0%nat.
Proof.
  unfold count. induction l as [|x xs IH]; simpl; [reflexivity|].
  intros H. apply orb_false_iff in H as [Hx Hxs]. rewrite Hx. now apply IH.
Qed.

Lemma count_plain_none l :
  existsb asElem (map read l) = false -> count plain l = 0%nat.
Proof.
  unfold count. induction l as [|x xs IH]; simpl; [reflexivity|].
  intros H. apply orb_false_iff in H as [Hx Hxs].
  destruct (plain x) eqn:Px; [|now apply IH].
  pose proof (read_element x Px) as R. injection R as _ R _ _ _ _.
  unfold isElem in Hx, R. congruence.
Qed.

(** However its fragment calls are mixed and whichever of them throw, a
    builder that holds at most one bare fragment (a string with none of [.],
    [:], [#] and [[], which only [element] can push) still holds at most one
    afterwards; when the values are plain, the same goes for the fragments
    with a [#] and for those with [::].  A fresh builder holds none of
    them. *)
Theorem at_most_one_of_each (h : gmap nat MyCssSelector) this o cs :
  h !! this = Some o ->
  exists o', afterAll this cs h !! this = Some o'
    /\ ((count plain (selectorsChain o) <= 1)%nat ->
        (count plain (selectorsChain o') <= 1)%nat)
    /\ (Forall (fun c => plain (snd c) = true) cs ->
        ((count isId (selectorsChain o) <= 1)%nat ->
         (count isId (selectorsChain o') <= 1)%nat)
        /\ ((count isPseudoElem (selectorsChain o) <= 1)%nat ->
            (count isPseudoElem (selectorsChain o') <= 1)%nat)).
Proof.
  intros Hthis.
  destruct (afterAll_invariant (fun _ => True) this cs) with (h := h) (o := o)
    as (o' & H' & _); auto.
  exists o'. split; [exact H'|]. split; [|intros Hplain; split]; intros Hle.
  - destruct (afterAll_invariant (fun o1 => (count plain (selectorsChain o1) <= 1)%nat)
                this cs) with (h := h) (o := o) as (o2 & H2 & Hc); auto.
    + intros c o1 _ Ho1 Hb. simpl. rewrite count_push.
      destruct (plain (fragment (fst c) (snd c))) eqn:Pf; [|lia].
      apply plain_fragment in Pf. rewrite Pf in Hb. simpl in Hb.
      rewrite (count_plain_none _ Hb). lia.
    + congruence.
  - destruct (afterAll_invariant (fun o1 => (count isId (selectorsChain o1) <= 1)%nat)
                this cs) with (h := h) (o := o) as (o2 & H2 & Hc); auto.
    + intros c o1 Hin Ho1 Hb. simpl. rewrite count_push.
      rewrite List.Forall_forall in Hplain.
      change (isId (fragment (fst c) (snd c)))
        with (asId (read (fragment (fst c) (snd c)))).
      rewrite (read_fragment _ _ (Hplain c Hin)).
      destruct (fst c); simpl in *; try lia.
      change (count isId (selectorsChain o1))
        with (count (fun s => asId (read s)) (selectorsChain o1)).
      rewrite (count_none asId _ Hb). lia.
    + congruence.
  - destruct (afterAll_invariant (fun o1 => (count isPseudoElem (selectorsChain o1) <= 1)%nat)
                this cs) with (h := h) (o := o) as (o2 & H2 & Hc); auto.
    + intros c o1 Hin Ho1 Hb. simpl. rewrite count_push.
      rewrite List.Forall_forall in Hplain.
      change (isPseudoElem (fragment (fst c) (snd c)))
        with (asPseudoElem (read (fragment (fst c) (snd c)))).
      rewrite (read_fragment _ _ (Hplain c Hin)).
      destruct (fst c); simpl in *; try lia.
      change (count isPseudoElem (selectorsChain o1))
        with (count (fun s => asPseudoElem (read s)) (selectorsChain o1)).
      rewrite (count_none asPseudoElem _ Hb). lia.
    + congruence.
Qed.

Lemma at_most_one_of_each_example :
  let h : gmap nat MyCssSelector := <[0%nat := mkSelector [] []]> ∅ in
  let cs := [(Element, "a"); (Element, "b"); (Id, "x"); (Class, "c"); (Id, "y");
             (PseudoElement, "p"); (PseudoElement, "q")] in
  exists o', afterAll 0%nat cs h !! 0%nat = Some o'
    /\ (count plain (selectorsChain o') <= 1)%nat
    /\ (count isId (selectorsChain o') <= 1)%nat
    /\ (count isPseudoElem (selectorsChain o') <= 1)%nat.
Proof.
  intros h cs.
  destruct (at_most_one_of_each h 0%nat (mkSelector [] []) cs eq_refl)
    as (o' & H' & Hbare & Hrest).
  exists o'. split; [exact H'|]. split; [apply Hbare; vm_compute; lia|].
  destruct Hrest as [Hid Hpe]; [repeat constructor|].
  split; [apply Hid | apply Hpe]; vm_compute; lia.
Defined.

(** ** Builders that have combined *)

(** Once [combine] has filled the buffer of a builder, the fragment methods
    still push onto its chain, but [stringify] never shows what they push:
    whatever calls are made on the builder, [stringify] returns the buffer
    joined by single spaces. *)
Theorem combined_builder_ignores_fragments (h : gmap nat MyCssSelector) this o cs :
  h !! this = Some o -> combinedSelectors o <> [] ->
  fst (Selector.stringify this (afterAll this cs h))
  = inr (JS.join (combinedSelectors o) " ").
Proof.
  intros Hthis Hne.
  destruct (afterAll_invariant (fun o1 => combinedSelectors o1 = combinedSelectors o)
              this cs) with (h := h) (o := o) as (o' & H' & Hc); auto.
  rewrite (stringify_combined _ _ _ H'); rewrite Hc; [reflexivity | exact Hne].
Qed.

Lemma combined_builder_ignores_fragments_example :
  let h : gmap nat MyCssSelector := <[0%nat := mkSelector [] ["div"; "+"; "p"]]> ∅ in
  fst (Selector.stringify 0%nat (afterAll 0%nat [(Class, "x"); (Attr, "href")] h))
  = inr "div + p".
Proof.
  intros h.
  apply (combined_builder_ignores_fragments h 0%nat (mkSelector [] ["div"; "+"; "p"])).
  - reflexivity.
  - discriminate.
Defined.

(** Operands that have combined themselves are left as they are by
    [combine]: the store only gains the new builder, whose buffer holds the
    two joined buffers around the combinator, so that nested calls of
    [combine] compose and a combined builder can be an operand again. *)
Theorem combine_keeps_combined_operands (h : gmap nat MyCssSelector) s1 o1 s2 o2 combinator :
  h !! s1 = Some o1 -> combinedSelectors o1 <> [] ->
  h !! s2 = Some o2 -> combinedSelectors o2 <> [] ->
  cssSelectorBuilder.combine s1 combinator s2 h
  = (inr (fresh (dom h)),
     <[fresh (dom h) := mkSelector []
         [JS.join (combinedSelectors o1) " "; combinator;
          JS.join (combinedSelectors o2) " "]]> h).
Proof.
  intros H1 C1 H2 C2.
  apply (facade_combine_three_tokens h s1 combinator s2 _ h _ h).
  - apply (stringify_combined _ _ _ H1 C1).
  - apply (stringify_combined _ _ _ H2 C2).
Qed.

Lemma combine_keeps_combined_operands_example :
  let h : gmap nat MyCssSelector :=
    <[1%nat := mkSelector [] ["tr"; " "; "td"]]>
      (<[0%nat := mkSelector [] ["div"; "+"; "p"]]> ∅) in
  cssSelectorBuilder.combine 0%nat "~" 1%nat h
  = (inr 2%nat, <[2%nat := mkSelector [] ["div + p"; "~"; "tr   td"]]> h).
Proof.
  intros h.
  apply (combine_keeps_combined_operands h 0%nat (mkSelector [] ["div"; "+"; "p"])
           1%nat (mkSelector [] ["tr"; " "; "td"]) "~").
  - reflexivity.
  - discriminate.
  - reflexivity.
  - discriminate.
Defined.

(** The same builder given as both operands, when it has not combined: the
    first [stringify] takes its fragments and empties it, the second finds
    nothing, and the text after the combinator is empty. *)
Theorem combine_same_operand_twice (h : gmap nat MyCssSelector) s o combinator :
  h !! s = Some o -> combinedSelectors o = [] ->
  let this := fresh (dom h) in
  let text := JS.join (selectorsChain o) "" in
  let h' := <[this := mkSelector [] [text; combinator; ""]]> (<[s := mkSelector [] []]> h) in
  cssSelectorBuilder.combine s combinator s h = (inr this, h')
  /\ Selector.stringify this h' = (inr (text ++ " " ++ combinator ++ " "), h').
Proof.
  intros Hs Hc this text h'.
  pose proof (stringify_chain _ _ _ Hs Hc) as E1.
  assert (E2 : Selector.stringify s (<[s := mkSelector [] []]> h)
               = (inr "", <[s := mkSelector [] []]> h)).
  { rewrite (stringify_chain _ s (mkSelector [] [])); [|apply lookup_insert_eq|reflexivity].
    now rewrite insert_insert_eq. }
  destruct (facade_combine_three_tokens h s combinator s _ _ _ _ E1 E2) as [Ec Es].
  split; [exact Ec|]. exact Es.
Qed.

Lemma combine_same_operand_twice_example :
  let h : gmap nat MyCssSelector := <[0%nat := mkSelector ["div"; "#main"] []]> ∅ in
  let h' := <[1%nat := mkSelector [] ["div#main"; "+"; ""]]>
              (<[0%nat := mkSelector [] []]> h) in
  cssSelectorBuilder.combine 0%nat "+" 0%nat h = (inr 1%nat, h')
  /\ Selector.stringify 1%nat h' = (inr "div#main + ", h').
Proof.
  intros h h'.
  apply (combine_same_operand_twice h 0%nat (mkSelector ["div"; "#main"] []) "+").
  - reflexivity.
  - reflexivity.
Defined.

(** ** Chains of calls with plain values *)

Lemma either_noReading_r r : either r noReading = r.
Proof. destruct r. unfold either. simpl. now rewrite !orb_false_r. Qed.

Lemma either_assoc r s t : either r (either s t) = either (either r s) t.
Proof. unfold either. simpl. now rewrite !orb_assoc. Qed.

Lemma seen_push rs r : seen (rs ++ [r]) = either (seen rs) r.
Proof.
  induction rs as [|x xs IH]; simpl.
  - rewrite either_noReading_r. now destruct r.
  - now rewrite IH, either_assoc.
Qed.

Lemma barred_seen k rs : barred k rs = barredSeen k (seen rs).
Proof.
  destruct k; simpl; try reflexivity;
    (induction rs as [|x xs IH]; simpl; [reflexivity | now rewrite IH]).
Qed.

Lemma plain_values_cons (c : kind * string) cs :
  Forall (fun c => plain (snd c) = true) (c :: cs) ->
  plain (snd c) = true /\ Forall (fun c => plain (snd c) = true) cs.
Proof. intros H. inversion H; subst. auto. Qed.

(** With plain values a chain of calls goes the way of [runKinds]. *)
Lemma performAll_runKinds (cs : list (kind * string)) :
  forall (h : gmap nat MyCssSelector) this o,
  h !! this = Some o -> inverted (selectorsChain o) = false ->
  Forall (fun c => plain (snd c) = true) cs ->
  let v := runKinds (seen (map read (selectorsChain o))) (map fst cs) in
  fst (performAll this cs h) = outcome v this
  /\ (forall s, v = Accepted s ->
      snd (performAll this cs h) !! this
      = Some (mkSelector (selectorsChain o ++ map (fun c => fragment (fst c) (snd c)) cs)
                (combinedSelectors o))).
Proof.
  induction cs as [|c cs IH]; intros h this o Hthis Hinv Hplain v.
  - split; [reflexivity|]. intros _ _. simpl. rewrite app_nil_r. now destruct o.
  - apply plain_values_cons in Hplain as [Hc Hcs].
    subst v. cbn [map runKinds performAll]. unfold stepKind, bind.
    rewrite (perform_at _ _ _ _ Hthis), barred_seen.
    set (S := seen (map read (selectorsChain o))).
    set (f := fragment (fst c) (snd c)).
    destruct (barredSeen (fst c) S); [split; [reflexivity | discriminate]|].
    assert (Einv : inverted (selectorsChain o ++ [f]) = clash S (readingOf (fst c))).
    { rewrite inverted_push, Hinv. unfold f. now rewrite (read_fragment _ _ Hc). }
    rewrite pushed_inverted. fold f. rewrite Einv.
    destruct (clash S (readingOf (fst c))); [split; [reflexivity | discriminate]|].
    assert (Eseen : seen (map read (selectorsChain (appended o f)))
                    = either S (readingOf (fst c))).
    { cbn [appended selectorsChain]. rewrite List.map_app.
      change (map read [f]) with [read f]. rewrite seen_push.
      unfold f. now rewrite (read_fragment _ _ Hc). }
    destruct (IH (<[this := appended o f]> h) this (appended o f)
                (lookup_insert_eq _ _ _) Einv Hcs) as [IH1 IH2].
    rewrite Eseen in IH1, IH2.
    split; [exact IH1|]. intros s Hs. rewrite (IH2 s Hs). simpl.
    now rewrite <- app_assoc.
Qed.

Lemma stepKind_first k : stepKind noReading k = Accepted (readingOf k).
Proof. destruct k; reflexivity. Qed.

Lemma build_runKinds (cs : list (kind * string)) (h : gmap nat MyCssSelector) :
  Forall (fun c => plain (snd c) = true) cs ->
  fst (build cs h)
  = outcome (runKinds noReading (map fst cs))
      (fold_right String.append "" (map (fun c => fragment (fst c) (snd c)) cs)).
Proof.
  intros Hplain. destruct cs as [|c cs].
  - unfold build, cssSelectorBuilder.stringify. rewrite facade_at.
    now rewrite (stringify_chain _ _ (mkSelector [] []) (lookup_insert_eq _ _ _) eq_refl).
  - apply plain_values_cons in Hplain as [Hc Hcs].
    cbn [build map runKinds]. rewrite stepKind_first. unfold bind at 1. rewrite start_at.
    set (this := fresh (dom h)). set (f := fragment (fst c) (snd c)).
    set (h1 := <[this := mkSelector [f] []]> h).
    destruct (performAll_runKinds cs h1 this (mkSelector [f] []) (lookup_insert_eq _ _ _)
                (inverted_singleton f) Hcs) as [E1 E2].
    cbn [selectorsChain combinedSelectors map seen fold_right] in E1, E2.
    rewrite either_noReading_r in E1, E2. unfold f in E1, E2 at 1.
    rewrite (read_fragment _ _ Hc) in E1, E2. fold f in E2.
    unfold bind. destruct (performAll this cs h1) as [r h2]. simpl in E1, E2. subst r.
    destruct (runKinds (readingOf (fst c)) (map fst cs)) as [s| |]; try reflexivity.
    simpl. rewrite (stringify_chain _ _ _ (E2 s eq_refl) eq_refl), join_no_separator.
    reflexivity.
Qed.

(** With plain values, whether a chain of calls started on the facade
    throws, and which error, depends on the methods called and on their
    order only: two chains of the same methods with other plain values, in
    whatever stores, throw the same error or both return. *)
Theorem build_failure_ignores_values (cs cs' : list (kind * string))
    (h h' : gmap nat MyCssSelector) :
  Forall (fun c => plain (snd c) = true) cs ->
  Forall (fun c => plain (snd c) = true) cs' ->
  map fst cs = map fst cs' ->
  failure (fst (build cs h)) = failure (fst (build cs' h')).
Proof.
  intros Hcs Hcs' Hk. rewrite (build_runKinds _ _ Hcs), (build_runKinds _ _ Hcs'), Hk.
  now destruct (runKinds _ _).
Qed.

Lemma build_failure_ignores_values_example :
  failure (fst (build [(Id, "main"); (Attr, "href")] ∅))
  = failure (fst (build [(Id, "nav"); (Attr, "title")]
                    (<[0%nat := mkSelector ["x"] []]> ∅))).
Proof.
  apply build_failure_ignores_values.
  - repeat constructor.
  - repeat constructor.
  - reflexivity.
Defined.

Lemma kinds_each (k : kind) (vs : list string) : map fst (map (pair k) vs) = repeat k (length vs).
Proof. induction vs as [|v vs IH]; simpl; [reflexivity | now rewrite IH]. Qed.

Lemma runKinds_repeat s k n rest :
  stepKind s k = Accepted s -> runKinds s (repeat k n ++ rest) = runKinds s rest.
Proof.
  intros E. induction n as [|n IH]; [reflexivity|].
  cbn [repeat app runKinds]. now rewrite E.
Qed.

Lemma runKinds_inOrder {A} e i cs ats ps q (a : A) :
  outcome (runKinds noReading (map fst (inOrder e i cs ats ps q))) a
  = if takenInOrder e i cs ats then inr a else inl OrderError.
Proof.
  unfold inOrder. rewrite !List.map_app, !kinds_each.
  destruct e, i, q, cs, ats, ps;
    repeat (simpl; rewrite ?runKinds_repeat by reflexivity);
    reflexivity.
Qed.

(** Chains of calls in the order of the source's comment, element, id,
    classes, attributes, pseudo-classes, pseudo-element, each part optional,
    with plain values.  The code takes such a chain, and [stringify] returns
    its fragments concatenated, when it opens with an element, or has no
    attribute, or has neither id nor class; it throws [OrderError] on the
    others, those that put an attribute after an id or a class and have no
    element. *)
Theorem inOrder_outcome e i cs ats ps q (h : gmap nat MyCssSelector) :
  Forall (fun c => plain (snd c) = true) (inOrder e i cs ats ps q) ->
  fst (build (inOrder e i cs ats ps q) h)
  = if takenInOrder e i cs ats
    then inr (fold_right String.append ""
                (map (fun c => fragment (fst c) (snd c)) (inOrder e i cs ats ps q)))
    else inl OrderError.
Proof.
  intros Hplain. rewrite (build_runKinds _ _ Hplain). apply runKinds_inOrder.
Qed.

Lemma inOrder_outcome_example :
  fst (build (inOrder (Some "a") None ["x"; "y"] ["href"; "title"] ["hover"] (Some "after")) ∅)
  = inr "a.x.y[href][title]:hover::after"
  /\ fst (build (inOrder None None ["x"; "y"] ["href"] [] None) ∅) = inl OrderError.
Proof.
  split.
  - apply (inOrder_outcome (Some "a") None ["x"; "y"] ["href"; "title"] ["hover"]
             (Some "after") ∅).
    repeat constructor.
  - apply (inOrder_outcome None None ["x"; "y"] ["href"] [] None ∅).
    repeat constructor.
Defined.

(** ** A builder after [stringify] *)

(** [stringify] on a builder that has not combined hands it back as good as
    new, even when [checkOrder] had rejected its chain: the next fragment
    call, whatever its method and value, is accepted and starts a chain of
    one fragment. *)
Theorem stringify_resets_builder (h : gmap nat MyCssSelector) this o c :
  h !! this = Some o -> combinedSelectors o = [] ->
  perform this c (snd (Selector.stringify this h))
  = (inr this, <[this := mkSelector [fragment (fst c) (snd c)] []]> h).
Proof.
  intros Hthis Hc. rewrite (stringify_chain _ _ _ Hthis Hc). cbn [snd].
  rewrite (perform_at _ _ (mkSelector [] []) _ (lookup_insert_eq _ _ _)).
  cbn [selectorsChain map].
  replace (barred (fst c) []) with false by now destruct (fst c).
  unfold pushed. simpl. rewrite invertedReadings_singleton.
  now rewrite insert_insert_eq.
Qed.

Lemma stringify_resets_builder_example :
  let h : gmap nat MyCssSelector := <[0%nat := mkSelector [".x"; "a"] []]> ∅ in
  perform 0%nat (Element, "div") (snd (Selector.stringify 0%nat h))
  = (inr 0%nat, <[0%nat := mkSelector ["div"] []]> h).
Proof.
  intros h.
  apply (stringify_resets_builder h 0%nat (mkSelector [".x"; "a"] []) (Element, "div")).
  - reflexivity.
  - reflexivity.
Defined.
